(** * MyLocation-Expo: the persistence logic of [App.js]

    [App.js] is a single React Native screen.  Its logic is four async
    functions over two [AsyncStorage] keys and three pieces of React state:
    [loadDarkMode], [onToggleSwitch], [getLocation] and [loadLocations].

    The embedding is shallow.  JavaScript values that flow through
    [JSON.parse] / [JSON.stringify] are the inductive type [json]; numbers are
    binary64 floats, as in JavaScript.  An async function is a state
    transformer over a [World] (React state, storage contents, the outcome of
    the storage calls still to come, and the trace of observable effects) that
    completes normally or throws.  [try]/[catch]/[finally] are combinators of
    that monad.  The engine's built-ins whose text output the program does not
    fix ([JSON.parse], [JSON.stringify], [Number.prototype.toString(36)],
    [Date.prototype.toISOString]) are the operations of a [Platform]; the
    theorems hold for every platform, and a reference platform is given to run
    the model.

    What the model takes for granted: the functions run one at a time, as
    the user interface serialises them (the two loads of the mount effect are
    run in the order they are started); a rejected [AsyncStorage.setItem] has
    written nothing; [console.error] and [Alert.alert] do not throw.  The
    theme effect and the rendering are left out. *)

From Stdlib Require Import Floats ZArith Ascii String.
From stdpp Require Import base option list strings gmap pretty.

Set Default Proof Using "Type".
Set Warnings "-inexact-float,-register-all".

(** ** JavaScript values *)

(** The values [JSON.parse] can return, which are also the only values the
    program ever stores in its React state or serialises. *)
Inductive json : Type :=
| JNull
| JBool (b : bool)
| JNum (x : float)
| JStr (s : string)
| JArr (elements : list json)
| JObj (fields : list (string * json)).

(** [ToBoolean]: what [!v] and [v ? a : b] test. *)
Definition truthy (v : json) : bool :=
  match v with
  | JNull => false
  | JBool b => b
  | JNum x => negb (PrimFloat.is_zero x || PrimFloat.is_nan x)
  | JStr s => negb (String.eqb s "")
  | JArr _ | JObj _ => true
  end.

(** The exceptions the program can meet: a rejected [AsyncStorage] promise,
    [JSON.parse] on malformed text, and spreading a value that is not
    iterable. *)
Inductive exn : Type := StorageError | SyntaxError | TypeError.

(** ** Observable effects *)

Inductive event : Type :=
| StorageGet (key : string)
| StorageSet (key value : string)
| ConsoleError (message : string) (error : exn)
| AlertShown (title message : string).

Definition is_alert (e : event) : bool :=
  match e with AlertShown _ _ => true | _ => false end.

Definition is_write (e : event) : bool :=
  match e with StorageSet _ _ => true | _ => false end.

(** The storage key an event touches, if any. *)
Definition event_key (e : event) : option string :=
  match e with
  | StorageGet k | StorageSet k _ => Some k
  | _ => None
  end.

(** ** The world an async function runs in *)

Record World : Type := mkWorld {
  (* React state: [useState(false)], [useState(false)], [useState([])] *)
  isSwitchOn : json;
  isLoading : bool;
  locations : json;
  (* AsyncStorage contents *)
  items : gmap string string;
  (* whether each of the coming AsyncStorage calls rejects; none does once
     the list is used up *)
  faults : list bool;
  (* effects so far, oldest first *)
  trace : list event
}.

(** The component as first rendered, over a given device storage. *)
Definition mounted (store : gmap string string) (fs : list bool) : World :=
  mkWorld (JBool false) false (JArr []) store fs [].

Inductive completion (A : Type) : Type :=
| Normal (a : A)
| Throw (e : exn).
Arguments Normal {A} a.
Arguments Throw {A} e.

Definition Async (A : Type) : Type := World → completion A * World.

#[global] Instance Async_ret : MRet Async := λ A a w, (Normal a, w).

#[global] Instance Async_bind : MBind Async := λ A B k m w,
  match m w with
  | (Normal a, w1) => k a w1
  | (Throw e, w1) => (Throw e, w1)
  end.

Definition throw {A : Type} (e : exn) : Async A := λ w, (Throw e, w).

(** [try { body } catch (error) { handler error }] *)
Definition try_catch {A : Type} (body : Async A) (handler : exn → Async A) : Async A :=
  λ w, match body w with
       | (Normal a, w1) => (Normal a, w1)
       | (Throw e, w1) => handler e w1
       end.

(** [try { m } finally { fin }]: [fin] runs however [m] completes, and the
    completion of [m] stands unless [fin] itself throws. *)
Definition finally {A : Type} (m : Async A) (fin : Async unit) : Async A :=
  λ w, let '(c, w1) := m w in
       match fin w1 with
       | (Normal _, w2) => (c, w2)
       | (Throw e, w2) => (Throw e, w2)
       end.

Definition run {A : Type} (m : Async A) (w : World) : World := snd (m w).
Definition outcome {A : Type} (m : Async A) (w : World) : completion A := fst (m w).

Definition emit (e : event) : Async unit :=
  λ w, (Normal (), mkWorld (isSwitchOn w) (isLoading w) (locations w)
                           (items w) (faults w) (trace w ++ [e])).

(** React state setters. *)
Definition setIsSwitchOn (v : json) : Async unit :=
  λ w, (Normal (), mkWorld v (isLoading w) (locations w) (items w) (faults w) (trace w)).

Definition setIsLoading (b : bool) : Async unit :=
  λ w, (Normal (), mkWorld (isSwitchOn w) b (locations w) (items w) (faults w) (trace w)).

Definition setLocations (v : json) : Async unit :=
  λ w, (Normal (), mkWorld (isSwitchOn w) (isLoading w) v (items w) (faults w) (trace w)).

Definition get_isSwitchOn : Async json := λ w, (Normal (isSwitchOn w), w).

Definition console_error (message : string) (error : exn) : Async unit :=
  emit (ConsoleError message error).

Definition Alert_alert (title message : string) : Async unit :=
  emit (AlertShown title message).

(** ** AsyncStorage *)

(** Whether the storage call being made rejects. *)
Definition next_fault : Async bool :=
  λ w, match faults w with
       | [] => (Normal false, w)
       | b :: fs => (Normal b, mkWorld (isSwitchOn w) (isLoading w) (locations w)
                                       (items w) fs (trace w))
       end.

(** [await AsyncStorage.getItem(key)]: the stored string, or [null] when the
    key is absent. *)
Definition AsyncStorage_getItem (key : string) : Async (option string) :=
  emit (StorageGet key);;
  rejected ← next_fault;
  if rejected : bool then throw StorageError
  else λ w, (Normal (items w !! key), w).

(** [await AsyncStorage.setItem(key, value)]; a rejected call has written
    nothing. *)
Definition AsyncStorage_setItem (key value : string) : Async unit :=
  emit (StorageSet key value);;
  rejected ← next_fault;
  if rejected : bool then throw StorageError
  else λ w, (Normal (), mkWorld (isSwitchOn w) (isLoading w) (locations w)
                                (<[key := value]> (items w)) (faults w) (trace w)).

(** ** The engine's built-ins *)

Class Platform : Type := {
  (* [JSON.parse(text)]; [None] is a thrown SyntaxError *)
  JSON_parse : string → option json;
  (* [JSON.stringify(value)] *)
  JSON_stringify : json → string;
  (* [x.toString(36)] *)
  Number_toString36 : float → string;
  (* [new Date(ms).toISOString()] *)
  Date_toISOString : Z → string
}.

(** What one call of [getLocation] reads from the clock and from
    [Math.random()], in evaluation order. *)
Record Draws : Type := mkDraws {
  Date_now : Z;          (* Date.now(), in the id *)
  random_id : float;     (* Math.random(), in the id *)
  random_lat : float;    (* Math.random(), in the latitude *)
  random_lon : float;    (* Math.random(), in the longitude *)
  new_Date : Z           (* new Date(), in the timestamp *)
}.

(** Strings are the UTF-8 bytes of the JavaScript string.  Iterating a string
    yields its code points: a byte [10xxxxxx] continues the character before
    it. *)
Definition is_continuation (c : Ascii.ascii) : bool :=
  let n := Ascii.N_of_ascii c in (128 <=? n)%N && (n <? 192)%N.

Fixpoint code_points (s : string) : list string :=
  match s with
  | EmptyString => []
  | String c rest =>
      let continued :=
        match rest with String c' _ => is_continuation c' | EmptyString => false end in
      match code_points rest with
      | p :: ps =>
          if continued then String c p :: ps else String c EmptyString :: p :: ps
      | [] => [String c EmptyString]
      end
  end.

(** [[newLocation, ...v]] needs [v] iterable: an array gives its elements, a
    string its characters, anything else throws a TypeError. *)
Definition iterate (v : json) : option (list json) :=
  match v with
  | JArr l => Some l
  | JStr s => Some (JStr <$> code_points s)
  | _ => None
  end.

Definition spread (v : json) : Async (list json) :=
  match iterate v with
  | Some l => mret l
  | None => throw TypeError
  end.

(** ** [App.js] *)

Definition DARK_MODE_KEY : string := "@darkMode".
Definition LOCATIONS_KEY : string := "@locations".

Section App.
Context {platform : Platform}.

Definition parse (text : string) : Async json :=
  match JSON_parse text with
  | Some v => mret v
  | None => throw SyntaxError
  end.

Definition loadDarkMode : Async unit :=
  try_catch
    (storedDarkMode ← AsyncStorage_getItem DARK_MODE_KEY;
     match storedDarkMode with
     | Some text => v ← parse text; setIsSwitchOn v
     | None => mret ()
     end)
    (λ error,
       console_error "Failed to load dark mode state from AsyncStorage" error;;
       Alert_alert "Erro" "Não foi possível carregar a preferência de tema escuro.").

Definition onToggleSwitch : Async unit :=
  switchOn ← get_isSwitchOn;
  let newSwitchState := negb (truthy switchOn) in
  setIsSwitchOn (JBool newSwitchState);;
  try_catch
    (AsyncStorage_setItem DARK_MODE_KEY (JSON_stringify (JBool newSwitchState)))
    (λ error,
       console_error "Failed to save dark mode state to AsyncStorage" error;;
       Alert_alert "Erro" "Não foi possível salvar a preferência de tema escuro.").

(** The object literal of [getLocation]. *)
Definition newLocation (d : Draws) : json :=
  JObj [
    ("id", JStr ("loc-" +:+ pretty (Date_now d) +:+ "-"
                 +:+ String.substring 2 7 (Number_toString36 (random_id d))));
    ("latitude", JNum (-23.5505199 + (random_lat d * 0.1 - 0.05))%float);
    ("longitude", JNum (-46.6333094 + (random_lon d * 0.1 - 0.05))%float);
    ("timestamp", JStr (Date_toISOString (new_Date d)))
  ].

(** The [try] block of [getLocation]. *)
Definition getLocation_try (newLocation : json) : Async unit :=
  existingLocationsString ← AsyncStorage_getItem LOCATIONS_KEY;
  currentLocations ←
    match existingLocationsString with
    | Some text => if String.eqb text "" then mret (JArr []) else parse text
    | None => mret (JArr [])
    end;
  rest ← spread currentLocations;
  let updatedLocations := JArr (newLocation :: rest) in
  AsyncStorage_setItem LOCATIONS_KEY (JSON_stringify updatedLocations);;
  setLocations updatedLocations.

(** [getLocation] around a given [newLocation]. *)
Definition appendRecord (newLocation : json) : Async unit :=
  setIsLoading true;;
  finally
    (try_catch
       (getLocation_try newLocation)
       (λ error,
          console_error "Failed to save new location to AsyncStorage" error;;
          Alert_alert "Erro" "Não foi possível salvar a nova localização."))
    (setIsLoading false).

Definition getLocation (d : Draws) : Async unit := appendRecord (newLocation d).

(** The [try] block of [loadLocations]. *)
Definition loadLocations_try : Async unit :=
  storedLocationsString ← AsyncStorage_getItem LOCATIONS_KEY;
  match storedLocationsString with
  | Some text => v ← parse text; setLocations v
  | None => let initialLocations := JArr [] in setLocations initialLocations
  end.

Definition loadLocations : Async unit :=
  setIsLoading true;;
  finally
    (try_catch
       loadLocations_try
       (λ error,
          console_error "Failed to load locations from AsyncStorage" error;;
          Alert_alert "Erro" "Não foi possível carregar as localizações salvas.";;
          setLocations (JArr [])))
    (setIsLoading false).

(** The mount effect: [loadDarkMode(); loadLocations();].  The two are
    started in this order and share no key and no piece of state. *)
Definition mount : Async unit := loadDarkMode;; loadLocations.

(** What the user can do afterwards: flip the switch or press the button. *)
Inductive action : Type :=
| ToggleSwitch
| PressCapture (d : Draws).

Definition handle (a : action) : Async unit :=
  match a with
  | ToggleSwitch => onToggleSwitch
  | PressCapture d => getLocation d
  end.

Fixpoint interact (acts : list action) : Async unit :=
  match acts with
  | [] => mret ()
  | a :: rest => handle a;; interact rest
  end.

(** A session of the app: mount, then the user's actions in order. *)
Definition session (acts : list action) : Async unit := mount;; interact acts.

End App.

(** ** A reference platform

    An executable engine for the four built-ins, used to run the model on
    concrete inputs.  Numbers are written with the shortest digits that read
    back as the same float and read with correct rounding, as ECMAScript
    prescribes.  Object keys keep their order of appearance (an engine puts
    integer-like keys first). *)
Module Reference.

Local Open Scope Z_scope.

Definition char_code (c : Ascii.ascii) : Z := Z.of_N (Ascii.N_of_ascii c).
Definition char_of (n : Z) : Ascii.ascii := Ascii.ascii_of_N (Z.to_N n).

(** *** Numbers as decimals *)

Definition pow10 (n : Z) : Z := 10 ^ n.

(** The float nearest to [n * 10^x], signed by [neg]: reading a decimal
    literal. *)
Definition of_decimal (neg : bool) (n x : Z) : float :=
  SF2Prim
    match n with
    | Zpos p =>
        if 0 <=? x then binary_normalize prec emax (cond_Zopp neg (n * pow10 x)) 0 false
        else SFdiv prec emax (S754_finite neg p 0)
                   (S754_finite false (Z.to_pos (pow10 (- x))) 0)
    | _ => S754_zero neg
    end.

Definition decimal_length (n : Z) : Z := Z.of_nat (String.length (pretty n)).

(** [floor (log10 (num / den))] for positive [num] and [den]. *)
Definition log10_floor (num den : Z) : Z :=
  if den <=? num then decimal_length (num / den) - 1
  else - decimal_length ((den + num - 1) / num - 1).

(** [num / den * 10^(-t)] as a fraction. *)
Definition scaled (num den t : Z) : Z * Z :=
  if 0 <=? t then (num, den * pow10 t) else (num * pow10 (- t), den).

(** The digits [s] with [s * 10^t] reading back as [x], closest to
    [|x| = num / den], among the two decimals around it at exponent [t]. *)
Definition candidate (x : float) (neg : bool) (num den t : Z) : option Z :=
  let '(n, d) := scaled num den t in
  let lo := n / d in
  let hi := lo + 1 in
  let ok s := PrimFloat.eqb (of_decimal neg s t) x in
  match ok lo, ok hi with
  | true, true =>
      match 2 * (n - lo * d) ?= d with
      | Lt => Some lo
      | Gt => Some hi
      | Eq => Some (if Z.even lo then lo else hi)
      end
  | true, false => Some lo
  | false, true => Some hi
  | false, false => None
  end.

Fixpoint strip_zeros (fuel : nat) (s t : Z) : Z * Z :=
  match fuel with
  | O => (s, t)
  | S fuel => if (s mod 10 =? 0) && negb (s =? 0) then strip_zeros fuel (s / 10) (t + 1)
              else (s, t)
  end.

(** Search with [k = 1, 2, ...] digits; [more] counts the lengths left. *)
Fixpoint shortest_from (more : nat) (x : float) (neg : bool) (num den e k : Z) : Z * Z :=
  match more with
  | O => (0, 0)
  | S more =>
      let t := e - (k - 1) in
      match candidate x neg num den t with
      | Some s => strip_zeros 20 s t
      | None => shortest_from more x neg num den e (k + 1)
      end
  end.

(** [(s, t)] with [|x| = s * 10^t] up to rounding and [s] as short as can be. *)
Definition shortest (x : float) (neg : bool) (m : positive) (e : Z) : Z * Z :=
  let '(num, den) := if 0 <=? e then (Zpos m * 2 ^ e, 1) else (Zpos m, 2 ^ (- e)) in
  shortest_from 17 x neg num den (log10_floor num den) 1.

Definition zeros (n : Z) : string := String.string_of_list_ascii (replicate (Z.to_nat n) "0"%char).

(** [Number::toString] in radix 10. *)
Definition Number_toString (x : float) : string :=
  match Prim2SF x with
  | S754_nan => "NaN"
  | S754_infinity neg => if neg then "-Infinity" else "Infinity"
  | S754_zero _ => "0"
  | S754_finite neg m e =>
      let '(s, t) := shortest x neg m e in
      let digits := pretty s in
      let k := Z.of_nat (String.length digits) in
      let n := k + t in
      let body :=
        if (k <=? n) && (n <=? 21) then digits +:+ zeros (n - k)
        else if (0 <? n) && (n <=? 21) then
          String.substring 0 (Z.to_nat n) digits +:+ "."
          +:+ String.substring (Z.to_nat n) (Z.to_nat (k - n)) digits
        else if (-6 <? n) && (n <=? 0) then "0." +:+ zeros (- n) +:+ digits
        else
          let exponent := (if 0 <? n - 1 then "+" else "-") +:+ pretty (Z.abs (n - 1)) in
          if k =? 1 then digits +:+ "e" +:+ exponent
          else String.substring 0 1 digits +:+ "."
               +:+ String.substring 1 (Z.to_nat (k - 1)) digits +:+ "e" +:+ exponent in
      if neg then "-" +:+ body else body
  end.

(** *** JSON.stringify *)

Definition hex_digit (n : Z) : ascii :=
  if n <? 10 then char_of (48 + n) else char_of (87 + n).

(** [QuoteJSONString], one character at a time. *)
Definition quote_char (c : ascii) : string :=
  let n := char_code c in
  if n =? 34 then String (char_of 92) (String c EmptyString)
  else if n =? 92 then "\\"
  else if n =? 8 then "\b"
  else if n =? 12 then "\f"
  else if n =? 10 then "\n"
  else if n =? 13 then "\r"
  else if n =? 9 then "\t"
  else if n <? 32 then
    "\u00" +:+ String (hex_digit (n / 16)) (String (hex_digit (n mod 16)) EmptyString)
  else String c EmptyString.

Fixpoint quote_chars (s : string) : string :=
  match s with
  | EmptyString => EmptyString
  | String c rest => quote_char c +:+ quote_chars rest
  end.

Definition quote (s : string) : string :=
  String (char_of 34) (quote_chars s) +:+ String (char_of 34) EmptyString.

Definition commas (parts : list string) : string :=
  match parts with
  | [] => EmptyString
  | p :: ps => fold_left (λ acc q, acc +:+ "," +:+ q) ps p
  end.

Fixpoint stringify (v : json) : string :=
  match v with
  | JNull => "null"
  | JBool b => if b then "true" else "false"
  | JNum x =>
      match Prim2SF x with
      | S754_nan | S754_infinity _ => "null"
      | _ => Number_toString x
      end
  | JStr s => quote s
  | JArr l => "[" +:+ commas (map stringify l) +:+ "]"
  | JObj fs =>
      "{" +:+ commas (map (λ kv, quote (fst kv) +:+ ":" +:+ stringify (snd kv)) fs) +:+ "}"
  end.

(** *** JSON.parse *)

Definition is_ws (c : ascii) : bool :=
  let n := char_code c in (n =? 32) || (n =? 9) || (n =? 10) || (n =? 13).

Fixpoint skip_ws (s : string) : string :=
  match s with
  | String c rest => if is_ws c then skip_ws rest else s
  | EmptyString => s
  end.

Definition digit_value (c : ascii) : option Z :=
  let n := char_code c in
  if (48 <=? n) && (n <=? 57) then Some (n - 48) else None.

Definition hex_value (c : ascii) : option Z :=
  let n := char_code c in
  if (48 <=? n) && (n <=? 57) then Some (n - 48)
  else if (65 <=? n) && (n <=? 70) then Some (n - 55)
  else if (97 <=? n) && (n <=? 102) then Some (n - 87)
  else None.

(** Leading decimal digits: their value on top of [acc], how many, the rest. *)
Fixpoint digits (s : string) (acc count : Z) : Z * Z * string :=
  match s with
  | String c rest =>
      match digit_value c with
      | Some d => digits rest (10 * acc + d) (count + 1)
      | None => (acc, count, s)
      end
  | EmptyString => (acc, count, s)
  end.

Definition leading_zero (s : string) : bool :=
  match s with String c _ => char_code c =? 48 | EmptyString => false end.

(** A JSON number: [-? int frac? exp?]. *)
Definition number (s : string) : option (float * string) :=
  let '(neg, s) :=
    match s with
    | String c rest => if char_code c =? 45 then (true, rest) else (false, s)
    | EmptyString => (false, s)
    end in
  let '(i, ni, s1) := digits s 0 0 in
  if (ni =? 0) || (leading_zero s && negb (ni =? 1)) then None
  else
    fraction ←
      match s1 with
      | String c rest =>
          if char_code c =? 46 then
            let '(f, nf, s2) := digits rest i 0 in
            if nf =? 0 then None else Some (f, nf, s2)
          else Some (i, 0, s1)
      | EmptyString => Some (i, 0, s1)
      end;
    let '(m, nf, s2) := fraction in
    exponent ←
      match s2 with
      | String c rest =>
          if (char_code c =? 101) || (char_code c =? 69) then
            let '(eneg, rest) :=
              match rest with
              | String c' rest' =>
                  if char_code c' =? 45 then (true, rest')
                  else if char_code c' =? 43 then (false, rest')
                  else (false, rest)
              | EmptyString => (false, rest)
              end in
            let '(x, nx, s3) := digits rest 0 0 in
            if nx =? 0 then None else Some (if eneg : bool then - x else x, s3)
          else Some (0, s2)
      | EmptyString => Some (0, s2)
      end;
    let '(x, s3) := exponent in
    Some (of_decimal neg m (x - nf), s3).

(** UTF-8 for a code point. *)
Definition utf8 (cp : Z) : string :=
  let byte n := char_of n in
  if cp <? 128 then String (byte cp) EmptyString
  else if cp <? 2048 then
    String (byte (192 + cp / 64)) (String (byte (128 + cp mod 64)) EmptyString)
  else if cp <? 65536 then
    String (byte (224 + cp / 4096))
      (String (byte (128 + (cp / 64) mod 64)) (String (byte (128 + cp mod 64)) EmptyString))
  else
    String (byte (240 + cp / 262144))
      (String (byte (128 + (cp / 4096) mod 64))
         (String (byte (128 + (cp / 64) mod 64)) (String (byte (128 + cp mod 64)) EmptyString))).

(** Four hex digits. *)
Definition hex4 (s : string) : option (Z * string) :=
  match s with
  | String a (String b (String c (String d rest))) =>
      x ← hex_value a; y ← hex_value b; z ← hex_value c; w ← hex_value d;
      Some (((x * 16 + y) * 16 + z) * 16 + w, rest)
  | _ => None
  end.

(** The code point of a [\u] escape whose hex value is [hi]; a high surrogate
    followed by an escaped low surrogate is one code point. *)
Definition unicode_escape (hi : Z) (rest : string) : Z * string :=
  if (55296 <=? hi) && (hi <? 56320) then
    match rest with
    | String b (String u more) =>
        if (char_code b =? 92) && (char_code u =? 117) then
          match hex4 more with
          | Some (lo, more') =>
              if (56320 <=? lo) && (lo <? 57344)
              then (65536 + (hi - 55296) * 1024 + (lo - 56320), more')
              else (hi, rest)
          | None => (hi, rest)
          end
        else (hi, rest)
    | _ => (hi, rest)
    end
  else (hi, rest).

(** The characters of a string literal after its opening quote. *)
Fixpoint string_body (fuel : nat) (s : string) : option (string * string) :=
  match fuel with
  | O => None
  | S fuel =>
      match s with
      | EmptyString => None
      | String c rest =>
          let n := char_code c in
          if n =? 34 then Some (EmptyString, rest)
          else if n <? 32 then None
          else if n =? 92 then
            match rest with
            | String e rest' =>
                let k := char_code e in
                let plain (b : Z) :=
                  '(body, after) ← string_body fuel rest';
                  Some (String (char_of b) body, after) in
                if k =? 34 then plain 34
                else if k =? 92 then plain 92
                else if k =? 47 then plain 47
                else if k =? 98 then plain 8
                else if k =? 102 then plain 12
                else if k =? 110 then plain 10
                else if k =? 114 then plain 13
                else if k =? 116 then plain 9
                else if k =? 117 then
                  '(hi, more) ← hex4 rest';
                  let '(cp, more') := unicode_escape hi more in
                  '(body, after) ← string_body fuel more';
                  Some (utf8 cp +:+ body, after)
                else None
            | EmptyString => None
            end
          else
            '(body, after) ← string_body fuel rest;
            Some (String c body, after)
      end
  end.

Definition keyword (word : string) (v : json) (s : string) : option (json * string) :=
  if String.prefix word s
  then Some (v, String.substring (String.length word) (String.length s) s)
  else None.

(** A repeated key keeps its first position and takes the last value. *)
Fixpoint set_field (k : string) (v : json) (fs : list (string * json)) : list (string * json) :=
  match fs with
  | [] => [(k, v)]
  | (k', v') :: rest => if String.eqb k k' then (k, v) :: rest else (k', v') :: set_field k v rest
  end.

Fixpoint value (fuel : nat) (s : string) : option (json * string) :=
  match fuel with
  | O => None
  | S fuel =>
      match skip_ws s with
      | EmptyString => None
      | String c rest as s' =>
          let n := char_code c in
          if n =? 110 then keyword "null" JNull s'
          else if n =? 116 then keyword "true" (JBool true) s'
          else if n =? 102 then keyword "false" (JBool false) s'
          else if n =? 34 then
            '(body, after) ← string_body (String.length rest) rest;
            Some (JStr body, after)
          else if n =? 91 then
            match skip_ws rest with
            | String c' rest' =>
                if char_code c' =? 93 then Some (JArr [], rest') else elements fuel rest []
            | EmptyString => None
            end
          else if n =? 123 then
            match skip_ws rest with
            | String c' rest' =>
                if char_code c' =? 125 then Some (JObj [], rest') else members fuel rest []
            | EmptyString => None
            end
          else
            '(x, after) ← number s';
            Some (JNum x, after)
      end
  end
with elements (fuel : nat) (s : string) (acc : list json) : option (json * string) :=
  match fuel with
  | O => None
  | S fuel =>
      '(v, after) ← value fuel s;
      match skip_ws after with
      | String c rest =>
          if char_code c =? 44 then elements fuel rest (v :: acc)
          else if char_code c =? 93 then Some (JArr (rev (v :: acc)), rest)
          else None
      | EmptyString => None
      end
  end
with members (fuel : nat) (s : string) (acc : list (string * json)) : option (json * string) :=
  match fuel with
  | O => None
  | S fuel =>
      match skip_ws s with
      | String q rest =>
          if char_code q =? 34 then
            '(k, after) ← string_body (String.length rest) rest;
            match skip_ws after with
            | String c rest' =>
                if char_code c =? 58 then
                  '(v, after') ← value fuel rest';
                  let acc' := set_field k v acc in
                  match skip_ws after' with
                  | String c' rest'' =>
                      if char_code c' =? 44 then members fuel rest'' acc'
                      else if char_code c' =? 125 then Some (JObj acc', rest'')
                      else None
                  | EmptyString => None
                  end
                else None
            | EmptyString => None
            end
          else None
      | EmptyString => None
      end
  end.

Definition parse_text (text : string) : option json :=
  '(v, after) ← value (2 * String.length text + 2) text;
  match skip_ws after with
  | EmptyString => Some v
  | String _ _ => None
  end.

(** *** Number.prototype.toString(36) *)

(** ECMAScript leaves the digits of a fraction in another radix to the
    engine; here they are those of the exact expansion, which is finite. *)
Fixpoint integer36 (fuel : nat) (n : Z) (acc : string) : string :=
  match fuel with
  | O => acc
  | S fuel => if n =? 0 then acc
              else integer36 fuel (n / 36) (String (hex_digit (n mod 36)) acc)
  end.

Fixpoint fraction36 (fuel : nat) (num den : Z) : string :=
  match fuel with
  | O => EmptyString
  | S fuel => if num =? 0 then EmptyString
              else String (hex_digit (36 * num / den)) (fraction36 fuel ((36 * num) mod den) den)
  end.

Definition toString36 (x : float) : string :=
  match Prim2SF x with
  | S754_nan => "NaN"
  | S754_infinity neg => if neg then "-Infinity" else "Infinity"
  | S754_zero _ => "0"
  | S754_finite neg m e =>
      let '(num, den) := if 0 <=? e then (Zpos m * 2 ^ e, 1) else (Zpos m, 2 ^ (- e)) in
      let whole := num / den in
      let part := num mod den in
      (if neg then "-" else "")
      +:+ (if whole =? 0 then "0" else integer36 (Z.to_nat (Z.log2 whole) + 1) whole "")
      +:+ (if part =? 0 then "" else "." +:+ fraction36 (Z.to_nat (- e)) part den)
  end.

(** *** Date.prototype.toISOString *)

Definition padded (width : Z) (n : Z) : string :=
  let s := pretty n in zeros (width - Z.of_nat (String.length s)) +:+ s.

(** Year, month and day of a day count from 1970-01-01, in the proleptic
    Gregorian calendar. *)
Definition civil (days : Z) : Z * Z * Z :=
  let z := days + 719468 in
  let era := z / 146097 in
  let doe := z - era * 146097 in
  let yoe := (doe - doe / 1460 + doe / 36524 - doe / 146096) / 365 in
  let doy := doe - (365 * yoe + yoe / 4 - yoe / 100) in
  let mp := (5 * doy + 2) / 153 in
  let d := doy - (153 * mp + 2) / 5 + 1 in
  let m := if mp <? 10 then mp + 3 else mp - 9 in
  let y := yoe + era * 400 + (if m <=? 2 then 1 else 0) in
  (y, m, d).

Definition toISOString (ms : Z) : string :=
  let '(y, m, d) := civil (ms / 86400000) in
  let t := ms mod 86400000 in
  let year :=
    if (0 <=? y) && (y <=? 9999) then padded 4 y
    else (if y <? 0 then "-" else "+") +:+ padded 6 (Z.abs y) in
  year +:+ "-" +:+ padded 2 m +:+ "-" +:+ padded 2 d +:+ "T"
  +:+ padded 2 (t / 3600000) +:+ ":" +:+ padded 2 (t / 60000 mod 60) +:+ ":"
  +:+ padded 2 (t / 1000 mod 60) +:+ "." +:+ padded 3 (t mod 1000) +:+ "Z".

Definition engine : Platform :=
  {| JSON_parse := parse_text;
     JSON_stringify := stringify;
     Number_toString36 := toString36;
     Date_toISOString := toISOString |}.

End Reference.

(** ** Sample inputs *)

Module Sample.

(** Two captures in the same millisecond whose id draws agree, and a third
    one later. *)
Definition d1 : Draws := mkDraws 1730000000000 0.5 0.25 0.75 1730000000000.
Definition d2 : Draws := mkDraws 1730000000000 0.5 0.625 0.125 1730000000001.
Definition d3 : Draws :=
  mkDraws 1730000000123 0.7310585786300049 0.5 0.5 1730000000123.

(** Two more in one millisecond, whose id draws differ by [2^-41]. *)
Definition d4 : Draws :=
  mkDraws 1730000000456 (0.5 + 0x1p-40) 0.5 0.5 1730000000456.
Definition d5 : Draws :=
  mkDraws 1730000000456 (0.5 + 0x1p-41) 0.5 0.5 1730000000456.

Definition r1 : json := newLocation (platform := Reference.engine) d1.
Definition r2 : json := newLocation (platform := Reference.engine) d2.
Definition r3 : json := newLocation (platform := Reference.engine) d3.

(** A device whose storage is empty and whose calls all succeed. *)
Definition blank : World := mounted ∅ [].

(** A device whose next storage call is rejected. *)
Definition failing : World := mounted ∅ [true].

(** Devices with something already under one of the keys. *)
Definition with_locations (text : string) : World :=
  mounted {[ LOCATIONS_KEY := text ]} [].

Definition with_dark_mode (text : string) : World :=
  mounted {[ DARK_MODE_KEY := text ]} [].

End Sample.

(** ** Vocabulary of the statements *)

(** Whether the AsyncStorage call after the next [i] ones rejects. *)
Definition rejects_at (i : nat) (w : World) : bool := nth i (faults w) false.

(** Whether the next AsyncStorage call rejects. *)
Definition rejects (w : World) : bool := rejects_at 0 w.

(** None of the next [n] AsyncStorage calls rejects. *)
Definition quiet (n : nat) (w : World) : bool := forallb negb (take n (faults w)).

(** What a run from [w] to [w'] added to the trace. *)
Definition new_events (w w' : World) : list event :=
  drop (length (trace w)) (trace w').

Definition alerts (evs : list event) : nat := length (List.filter is_alert evs).
Definition writes (evs : list event) : list event := List.filter is_write evs.

(** The value of a field of an object. *)
Fixpoint field (name : string) (fs : list (string * json)) : option json :=
  match fs with
  | [] => None
  | (k, v) :: rest => if String.eqb k name then Some v else field name rest
  end.

Definition record_id (r : json) : option json :=
  match r with JObj fs => field "id" fs | _ => None end.

Section Statements.
Context {platform : Platform}.

(** The list held under the locations key: the array its text denotes, and
    the empty list when the key is absent. *)
Definition persisted (w : World) (L : list json) : Prop :=
  match items w !! LOCATIONS_KEY with
  | None => L = []
  | Some text => text ≠ EmptyString ∧ JSON_parse text = Some (JArr L)
  end.

(** What [getLocation] takes as the current list: the parsed text, or the
    empty list when the key is absent or its text is empty. *)
Definition currentLocations (w : World) : option json :=
  match items w !! LOCATIONS_KEY with
  | None => Some (JArr [])
  | Some text => if String.eqb text "" then Some (JArr []) else JSON_parse text
  end.

(** [v] survives being written and read: its text is not empty and parses
    to [v]. *)
Definition reads_back (v : json) : Prop :=
  JSON_stringify v ≠ EmptyString ∧ JSON_parse (JSON_stringify v) = Some v.

(** The storage holds the text of [L] under the locations key, or nothing
    when [L] is empty. *)
Definition stored (w : World) (L : list json) : Prop :=
  match L with
  | [] => items w !! LOCATIONS_KEY = None
  | _ :: _ => items w !! LOCATIONS_KEY = Some (JSON_stringify (JArr L))
  end.

(** [getLocation] once per record, in order. *)
Fixpoint appendAll (rs : list json) : Async unit :=
  match rs with
  | [] => mret ()
  | r :: rest => appendRecord r;; appendAll rest
  end.

(** [m] completes normally and adds to the trace only events that
    satisfy [P]. *)
Definition extends (P : event → Prop) (m : Async unit) : Prop :=
  ∀ w, outcome m w = Normal ()
       ∧ ∃ evs, trace (run m w) = trace w ++ evs ∧ Forall P evs.

(** An event the program may cause: a storage call on one of its two keys,
    a write of a boolean's text under the first or of an array's text under
    the second, or a message. *)
Definition lawful (e : event) : Prop :=
  match e with
  | StorageGet k => k = "@darkMode" ∨ k = "@locations"
  | StorageSet k v =>
      (k = "@darkMode" ∧ ∃ b, v = JSON_stringify (JBool b))
      ∨ (k = "@locations" ∧ ∃ l, v = JSON_stringify (JArr l))
  | ConsoleError _ _ | AlertShown _ _ => True
  end.

(** The same with the keys written without their [@]. *)
Definition lawful_unprefixed (e : event) : Prop :=
  match e with
  | StorageGet k => k = "darkMode" ∨ k = "locations"
  | StorageSet k v =>
      (k = "darkMode" ∧ ∃ b, v = JSON_stringify (JBool b))
      ∨ (k = "locations" ∧ ∃ l, v = JSON_stringify (JArr l))
  | ConsoleError _ _ | AlertShown _ _ => True
  end.

End Statements.

(** ** The rest of the component *)

(** The theme the component holds: [{ ...DefaultTheme, myOwnProperty: true,
    colors }], over the library's default theme and a colour table. *)
Record Theme (D C : Type) : Type := mkTheme {
  base : D;
  myOwnProperty : bool;
  colors : C
}.
Arguments mkTheme {D C} base myOwnProperty colors.
Arguments colors {D C} t.

(** The theme effect, run after a render in which [isSwitchOn] has changed:
    the dark colours when [isSwitchOn] is truthy, the light ones otherwise.
    [DefaultTheme], [myColors.colors] and [myColorsDark.colors] come from
    outside [App.js]. *)
Definition themeEffect {D C : Type} (DefaultTheme : D) (myColors myColorsDark : C)
    (w : World) : Theme D C :=
  if truthy (isSwitchOn w)
  then mkTheme DefaultTheme true myColorsDark
  else mkTheme DefaultTheme true myColors.

(** JavaScript counts a string in UTF-16 units: a character of four UTF-8
    bytes takes two units, any other takes one.  This is the UTF-8 text of
    the first of the two units of such a character, [c] being its first byte
    and [rest] what follows it. *)
Definition high_surrogate (c : ascii) (rest : string) : string :=
  match rest with
  | String c1 (String c2 (String c3 _)) =>
      let cp := ((N_of_ascii c - 240) * 262144 + (N_of_ascii c1 - 128) * 4096
                 + (N_of_ascii c2 - 128) * 64 + (N_of_ascii c3 - 128))%N in
      let unit := (55296 + (cp - 65536) / 1024)%N in
      String (ascii_of_N 237)
        (String (ascii_of_N (128 + (unit / 64) mod 64))
           (String (ascii_of_N (128 + unit mod 64)) EmptyString))
  | _ => EmptyString
  end.

(** [s.substring(0, n)]: the first [n] UTF-16 units of [s]. *)
Fixpoint substring_from_0 (n : nat) (s : string) : string :=
  match s with
  | EmptyString => EmptyString
  | String c rest =>
      if is_continuation c then String c (substring_from_0 n rest)
      else
        match n with
        | O => EmptyString
        | S n' =>
            if (240 <=? N_of_ascii c)%N then
              match n' with
              | O => high_surrogate c rest
              | S n'' => String c (substring_from_0 n'' rest)
              end
            else String c (substring_from_0 n' rest)
        end
  end.

(** The [title] of [renderItem]: [`ID: ${item.id.substring(0, 15)}...`].
    Only a string has a [substring] method among the values of [json], and
    only an object has an [id]: anything else throws a TypeError. *)
Definition title (item : json) : completion string :=
  match item with
  | JObj fs =>
      match field "id" fs with
      | Some (JStr id) => Normal ("ID: " +:+ substring_from_0 15 id +:+ "...")
      | _ => Throw TypeError
      end
  | _ => Throw TypeError
  end.

(** ** Vocabulary of the further statements *)

Definition is_console_error (e : event) : bool :=
  match e with ConsoleError _ _ => true | _ => false end.

Definition console_errors (evs : list event) : nat :=
  length (List.filter is_console_error evs).

(** Two worlds that differ at most in their trace and in the rejections to
    come. *)
Definition same_state (w1 w2 : World) : Prop :=
  isSwitchOn w1 = isSwitchOn w2
  ∧ isLoading w1 = isLoading w2
  ∧ locations w1 = locations w2
  ∧ items w1 = items w2.

Definition is_digit (c : ascii) : bool :=
  let n := N_of_ascii c in (48 <=? n)%N && (n <=? 57)%N.

Fixpoint all_digits (s : string) : bool :=
  match s with
  | EmptyString => true
  | String c rest => is_digit c && all_digits rest
  end.

Section FurtherStatements.
Context {platform : Platform}.

Definition is_capture (a : action) : bool :=
  match a with PressCapture _ => true | ToggleSwitch => false end.

Definition captures (acts : list action) : nat := length (List.filter is_capture acts).

(** The text under the locations key is one [getLocation] cannot build on:
    it is not empty and either does not parse or parses to a value that is
    not iterable. *)
Definition unusable (w : World) : Prop :=
  ∃ text, items w !! LOCATIONS_KEY = Some text
          ∧ String.eqb text "" = false
          ∧ match JSON_parse text with
            | None => True
            | Some v => iterate v = None
            end.

(** [m] completes normally, and what it adds to the trace has as many
    alerts as logged errors, at most [n] of each. *)
Definition reports (n : nat) (m : Async unit) : Prop :=
  ∀ w, outcome m w = Normal ()
       ∧ ∃ evs, trace (run m w) = trace w ++ evs
                ∧ alerts evs = console_errors evs
                ∧ alerts evs ≤ n.

(** The seven characters [getLocation] keeps of a draw. *)
Definition id_suffix (x : float) : string :=
  String.substring 2 7 (Number_toString36 x).

End FurtherStatements.

(** A JSON string literal holding [s], for texts without escapes. *)
Definition quoted (s : string) : string :=
  String (ascii_of_N 34) s +:+ String (ascii_of_N 34) EmptyString.

(** ** More sample inputs *)

Module Sample2.
Import Sample.

(** A device whose locations key holds the JSON string ["ab"]. *)
Definition with_string : World := with_locations (quoted "ab").

(** A device whose dark-mode key holds the JSON string ["false"]. *)
Definition with_false_string : World := with_dark_mode (quoted "false").

(** A device holding one record, whose first storage call is rejected. *)
Definition one_record : string :=
  JSON_stringify (Platform := Reference.engine) (JArr [r1]).

Definition flaky : World := mounted {[ LOCATIONS_KEY := one_record ]} [true].

(** A device with something valid under both keys. *)
Definition with_both : World :=
  mounted (<[DARK_MODE_KEY := "true"]> {[ LOCATIONS_KEY := one_record ]}) [].

Definition taps : list action := [PressCapture d1; ToggleSwitch; PressCapture d3].

End Sample2.

(** ** Proofs *)

Ltac exec :=
  cbv [loadLocations loadLocations_try loadDarkMode onToggleSwitch appendRecord
       getLocation getLocation_try mbind mret Async_bind Async_ret try_catch
       finally throw emit console_error Alert_alert next_fault setIsLoading
       setLocations setIsSwitchOn get_isSwitchOn parse spread
       AsyncStorage_getItem AsyncStorage_setItem rejects rejects_at nth faults
       items trace isSwitchOn isLoading locations tail drop run outcome fst snd
       new_events] in *.

Ltac tidy := rewrite <- ?app_assoc; cbn [app].

Ltac settle :=
  unfold new_events, alerts, writes;
  cbn [trace locations items isSwitchOn isLoading faults fst snd];
  rewrite ?drop_app_length;
  cbn [List.filter is_alert is_write length].

Section Facts.
Context {platform : Platform}.

(** *** The four functions as equations *)

Lemma loadLocations_eq (w : World) :
  loadLocations w =
  (Normal (),
   let failed e :=
     mkWorld (isSwitchOn w) false (JArr []) (items w) (tail (faults w))
       (trace w ++ [StorageGet LOCATIONS_KEY;
                    ConsoleError "Failed to load locations from AsyncStorage" e;
                    AlertShown "Erro" "Não foi possível carregar as localizações salvas."]) in
   let loaded v :=
     mkWorld (isSwitchOn w) false v (items w) (tail (faults w))
       (trace w ++ [StorageGet LOCATIONS_KEY]) in
   if rejects w then failed StorageError
   else match items w !! LOCATIONS_KEY with
        | None => loaded (JArr [])
        | Some text =>
            match JSON_parse text with
            | Some v => loaded v
            | None => failed SyntaxError
            end
        end).
Proof.
  destruct w as [sw ld locs st fs tr]. exec.
  destruct fs as [|[] fs];
    try (destruct (st !! LOCATIONS_KEY) as [text|]; [destruct (JSON_parse text)|]);
    tidy; reflexivity.
Qed.

Lemma loadDarkMode_eq (w : World) :
  loadDarkMode w =
  (Normal (),
   let failed e :=
     mkWorld (isSwitchOn w) (isLoading w) (locations w) (items w) (tail (faults w))
       (trace w ++ [StorageGet DARK_MODE_KEY;
                    ConsoleError "Failed to load dark mode state from AsyncStorage" e;
                    AlertShown "Erro" "Não foi possível carregar a preferência de tema escuro."]) in
   let loaded v :=
     mkWorld v (isLoading w) (locations w) (items w) (tail (faults w))
       (trace w ++ [StorageGet DARK_MODE_KEY]) in
   if rejects w then failed StorageError
   else match items w !! DARK_MODE_KEY with
        | None => loaded (isSwitchOn w)
        | Some text =>
            match JSON_parse text with
            | Some v => loaded v
            | None => failed SyntaxError
            end
        end).
Proof.
  destruct w as [sw ld locs st fs tr]. exec.
  destruct fs as [|[] fs];
    try (destruct (st !! DARK_MODE_KEY) as [text|]; [destruct (JSON_parse text)|]);
    tidy; reflexivity.
Qed.

Lemma onToggleSwitch_eq (w : World) :
  onToggleSwitch w =
  (Normal (),
   let newSwitchState := negb (truthy (isSwitchOn w)) in
   let text := JSON_stringify (JBool newSwitchState) in
   if rejects w then
     mkWorld (JBool newSwitchState) (isLoading w) (locations w) (items w) (tail (faults w))
       (trace w ++ [StorageSet DARK_MODE_KEY text;
                    ConsoleError "Failed to save dark mode state to AsyncStorage" StorageError;
                    AlertShown "Erro" "Não foi possível salvar a preferência de tema escuro."])
   else
     mkWorld (JBool newSwitchState) (isLoading w) (locations w)
       (<[DARK_MODE_KEY := text]> (items w)) (tail (faults w))
       (trace w ++ [StorageSet DARK_MODE_KEY text])).
Proof.
  destruct w as [sw ld locs st fs tr]. exec.
  destruct fs as [|[] fs]; tidy; reflexivity.
Qed.

Lemma appendRecord_eq (r : json) (w : World) :
  appendRecord r w =
  (Normal (),
   let failed fs evs e :=
     mkWorld (isSwitchOn w) false (locations w) (items w) fs
       (trace w ++ evs ++ [ConsoleError "Failed to save new location to AsyncStorage" e;
                           AlertShown "Erro" "Não foi possível salvar a nova localização."]) in
   let read := [StorageGet LOCATIONS_KEY] in
   if rejects_at 0 w then failed (drop 1 (faults w)) read StorageError
   else match currentLocations w with
        | None => failed (drop 1 (faults w)) read SyntaxError
        | Some v =>
            match iterate v with
            | None => failed (drop 1 (faults w)) read TypeError
            | Some rest =>
                let updatedLocations := JArr (r :: rest) in
                let text := JSON_stringify updatedLocations in
                let written := [StorageGet LOCATIONS_KEY; StorageSet LOCATIONS_KEY text] in
                if rejects_at 1 w then failed (drop 2 (faults w)) written StorageError
                else mkWorld (isSwitchOn w) false updatedLocations
                       (<[LOCATIONS_KEY := text]> (items w)) (drop 2 (faults w))
                       (trace w ++ written)
            end
        end).
Proof.
  destruct w as [sw ld locs st fs tr]. unfold currentLocations. exec.
  destruct fs as [|[] [|[] fs]]; try (tidy; reflexivity);
    (destruct (st !! LOCATIONS_KEY) as [text|];
     [destruct (String.eqb text ""); [|destruct (JSON_parse text) as [v|]]|]);
    cbn [iterate]; try (destruct (iterate v)); tidy; reflexivity.
Qed.

(** *** Loading *)

(** C3: [loadLocations] never throws.  When the read succeeds and the text
    under the locations key parses, the parsed value becomes the in-memory
    list and nothing is signalled; when the key is absent the list becomes
    empty and nothing is signalled; when the read is rejected or the text
    does not parse, the list becomes empty, the error is logged and one alert
    is shown. *)
Theorem loadLocations_cases (w : World) :
  let w' := run loadLocations w in
  outcome loadLocations w = Normal ()
  ∧ (rejects w = false →
     ∀ text v, items w !! LOCATIONS_KEY = Some text → JSON_parse text = Some v →
       locations w' = v ∧ new_events w w' = [StorageGet LOCATIONS_KEY])
  ∧ (rejects w = false → items w !! LOCATIONS_KEY = None →
       locations w' = JArr [] ∧ new_events w w' = [StorageGet LOCATIONS_KEY])
  ∧ (rejects w = true
     ∨ (∃ text, items w !! LOCATIONS_KEY = Some text ∧ JSON_parse text = None) →
       locations w' = JArr []
       ∧ alerts (new_events w w') = 1
       ∧ ∃ e, new_events w w' =
               [StorageGet LOCATIONS_KEY;
                ConsoleError "Failed to load locations from AsyncStorage" e;
                AlertShown "Erro" "Não foi possível carregar as localizações salvas."]).
Proof.
  unfold run, outcome. rewrite loadLocations_eq. cbv zeta.
  split; [reflexivity|]. split; [|split].
  - intros -> text v -> ->. settle. auto.
  - intros -> ->. settle. auto.
  - intros [Hr | (text & Hs & Hp)].
    + rewrite Hr. settle. eauto.
    + destruct (rejects w); [settle; eauto|]. rewrite Hs, Hp. settle. eauto.
Qed.

(** C10: when the read succeeds and the locations key holds a text, whatever
    that text parses to (a number, a string, an object) becomes the in-memory
    list as it is, with no error signalled; the list is reset to empty, with
    an alert, exactly when the text does not parse. *)
Theorem loadLocations_no_validation (w : World) (text : string) :
  rejects w = false →
  items w !! LOCATIONS_KEY = Some text →
  let w' := run loadLocations w in
  (∀ v, JSON_parse text = Some v →
     locations w' = v ∧ new_events w w' = [StorageGet LOCATIONS_KEY])
  ∧ (JSON_parse text = None → locations w' = JArr [] ∧ alerts (new_events w w') = 1)
  ∧ (alerts (new_events w w') ≠ 0 → JSON_parse text = None).
Proof.
  intros Hr Hs. unfold run. rewrite loadLocations_eq. cbv zeta.
  rewrite Hr, Hs. split; [|split].
  - intros v ->. settle. auto.
  - intros ->. settle. auto.
  - destruct (JSON_parse text); [|reflexivity]. settle. congruence.
Qed.

(** [loadDarkMode] changes the in-memory preference only when it has read
    and parsed a stored text. *)
Lemma loadDarkMode_keeps (w : World) :
  rejects w = true ∨ items w !! DARK_MODE_KEY = None
  ∨ (∃ text, items w !! DARK_MODE_KEY = Some text ∧ JSON_parse text = None) →
  isSwitchOn (run loadDarkMode w) = isSwitchOn w.
Proof.
  unfold run. rewrite loadDarkMode_eq. cbv zeta.
  intros [Hr | [Hs | (text & Hs & Hp)]].
  - rewrite Hr. reflexivity.
  - destruct (rejects w); [reflexivity|]. rewrite Hs. reflexivity.
  - destruct (rejects w); [reflexivity|]. rewrite Hs, Hp. reflexivity.
Qed.

(** C4: run on the preference as the component first holds it, [false],
    [loadDarkMode] never throws; it installs the stored boolean when the read
    succeeds and the text parses to one; the preference is [false] when the
    key is absent, and also when the read is rejected or the text does not
    parse, in which case the failure is logged. *)
Theorem loadDarkMode_cases (w : World) :
  isSwitchOn w = JBool false →
  let w' := run loadDarkMode w in
  outcome loadDarkMode w = Normal ()
  ∧ (rejects w = false →
     ∀ text b, items w !! DARK_MODE_KEY = Some text → JSON_parse text = Some (JBool b) →
       isSwitchOn w' = JBool b ∧ new_events w w' = [StorageGet DARK_MODE_KEY])
  ∧ (rejects w = false → items w !! DARK_MODE_KEY = None →
       isSwitchOn w' = JBool false ∧ new_events w w' = [StorageGet DARK_MODE_KEY])
  ∧ (rejects w = true
     ∨ (∃ text, items w !! DARK_MODE_KEY = Some text ∧ JSON_parse text = None) →
       isSwitchOn w' = JBool false
       ∧ ∃ e, new_events w w' =
               [StorageGet DARK_MODE_KEY;
                ConsoleError "Failed to load dark mode state from AsyncStorage" e;
                AlertShown "Erro" "Não foi possível carregar a preferência de tema escuro."]).
Proof.
  intros Hoff. unfold run, outcome. rewrite loadDarkMode_eq. cbv zeta.
  split; [reflexivity|]. split; [|split].
  - intros -> text b -> ->. settle. auto.
  - intros -> ->. settle. auto.
  - intros [Hr | (text & Hs & Hp)].
    + rewrite Hr. settle. eauto.
    + destruct (rejects w); [settle; eauto|]. rewrite Hs, Hp. settle. eauto.
Qed.

(** *** Toggling *)

(** C5: whatever the in-memory preference holds, [onToggleSwitch] never
    throws and sets it to the negation of its truth value, whether or not
    the write is rejected; a rejected write leaves the storage as it was, is
    logged, and shows exactly one alert; an accepted write stores the text of
    the new value and shows none. *)
Theorem onToggleSwitch_memory (w : World) :
  let w' := run onToggleSwitch w in
  let newSwitchState := negb (truthy (isSwitchOn w)) in
  outcome onToggleSwitch w = Normal ()
  ∧ isSwitchOn w' = JBool newSwitchState
  ∧ (rejects w = true →
       items w' = items w
       ∧ alerts (new_events w w') = 1
       ∧ new_events w w' =
           [StorageSet DARK_MODE_KEY (JSON_stringify (JBool newSwitchState));
            ConsoleError "Failed to save dark mode state to AsyncStorage" StorageError;
            AlertShown "Erro" "Não foi possível salvar a preferência de tema escuro."])
  ∧ (rejects w = false →
       items w' = <[DARK_MODE_KEY := JSON_stringify (JBool newSwitchState)]> (items w)
       ∧ alerts (new_events w w') = 0).
Proof.
  unfold run, outcome. rewrite onToggleSwitch_eq. cbv zeta.
  split; [reflexivity|]. split; [destruct (rejects w); reflexivity|]. split.
  - intros ->. settle. auto.
  - intros ->. settle. auto.
Qed.

(** *** Capturing *)

Lemma persisted_current (w : World) (L : list json) :
  persisted w L → currentLocations w = Some (JArr L).
Proof.
  unfold persisted, currentLocations.
  destruct (items w !! LOCATIONS_KEY) as [text|]; [|congruence].
  intros [Hne Hp]. destruct (String.eqb_spec text ""); [contradiction|assumption].
Qed.

Lemma quiet_two (w : World) :
  quiet 2 w = true → rejects_at 0 w = false ∧ rejects_at 1 w = false.
Proof.
  unfold quiet, rejects_at. destruct (faults w) as [|[] [|[] fs]]; cbn; auto.
Qed.

Lemma quiet_none (n : nat) (w : World) : faults w = [] → quiet n w = true.
Proof. unfold quiet. intros ->. destruct n; reflexivity. Qed.

(** A capture that meets a stored list and no rejection. *)
Lemma appendRecord_step (w : World) (r : json) (L : list json) :
  persisted w L → quiet 2 w = true →
  appendRecord r w =
  (Normal (),
   mkWorld (isSwitchOn w) false (JArr (r :: L))
     (<[LOCATIONS_KEY := JSON_stringify (JArr (r :: L))]> (items w))
     (drop 2 (faults w))
     (trace w ++ [StorageGet LOCATIONS_KEY;
                  StorageSet LOCATIONS_KEY (JSON_stringify (JArr (r :: L)))])).
Proof.
  intros Hp Hq. apply persisted_current in Hp. apply quiet_two in Hq as [H0 H1].
  rewrite appendRecord_eq. cbv zeta. rewrite H0, Hp. cbn [iterate]. rewrite H1.
  reflexivity.
Qed.

Lemma appendAll_cons (r : json) (rest : list json) (w : World) :
  run (appendAll (r :: rest)) w = run (appendAll rest) (run (appendRecord r) w).
Proof.
  unfold run. cbn [appendAll]. unfold mbind, Async_bind.
  rewrite appendRecord_eq. reflexivity.
Qed.

Lemma stored_persisted (w : World) (L : list json) :
  stored w L → (L ≠ [] → reads_back (JArr L)) → persisted w L.
Proof.
  unfold stored, persisted. destruct L as [|x L].
  - intros -> _. reflexivity.
  - intros -> Hb. apply Hb. discriminate.
Qed.

(** Captures in a row, none rejected, over a store and a memory that agree
    on [L]: each record goes in front. *)
Lemma appendAll_run (rs : list json) :
  ∀ (w : World) (L : list json),
    faults w = [] → locations w = JArr L → stored w L →
    (L ≠ [] → rs ≠ [] → reads_back (JArr L)) →
    (∀ i, 0 < i < length rs → reads_back (JArr (rev (take i rs) ++ L))) →
    let w' := run (appendAll rs) w in
    faults w' = [] ∧ locations w' = JArr (rev rs ++ L) ∧ stored w' (rev rs ++ L).
Proof.
  induction rs as [|r rest IH]; intros w L Hf Hl Hs HL Hrs.
  - cbn. auto.
  - cbv zeta. rewrite appendAll_cons.
    assert (Hp : persisted w L).
    { apply stored_persisted; [assumption|]. intros HLne. apply HL; [assumption|discriminate]. }
    pose proof (appendRecord_step w r L Hp (quiet_none 2 w Hf)) as Hstep.
    apply (f_equal snd) in Hstep. cbn [snd] in Hstep.
    fold (run (appendRecord r) w) in Hstep. rewrite Hstep, Hf.
    cbn [drop rev]. rewrite <- app_assoc. cbn [app].
    apply IH.
    + reflexivity.
    + reflexivity.
    + unfold stored. cbn [items]. apply lookup_insert_eq.
    + intros _ Hrest. specialize (Hrs 1). cbn in Hrs. apply Hrs.
      destruct rest; [contradiction|]. cbn. lia.
    + intros i Hi. specialize (Hrs (S i)). cbn [take rev length] in Hrs.
      rewrite <- app_assoc in Hrs. apply Hrs. lia.
Qed.

(** C1: a capture that finds the list [L] under the locations key and meets
    no rejection reads that key once, writes back the text of [r :: L],
    installs [r :: L] as the in-memory list, and signals nothing.  Hence
    captures of the records [rs] in a row, from an empty store, leave the list
    of those records in memory and in the store, last captured first, of the
    same length, as long as each list written on the way reads back as
    itself. *)
Theorem appendRecord_prepends :
  (∀ (w : World) (r : json) (L : list json),
     persisted w L → quiet 2 w = true →
     let w' := run (appendRecord r) w in
     outcome (appendRecord r) w = Normal ()
     ∧ items w' = <[LOCATIONS_KEY := JSON_stringify (JArr (r :: L))]> (items w)
     ∧ locations w' = JArr (r :: L)
     ∧ new_events w w' =
         [StorageGet LOCATIONS_KEY;
          StorageSet LOCATIONS_KEY (JSON_stringify (JArr (r :: L)))])
  ∧ (∀ (w : World) (rs : list json),
     items w !! LOCATIONS_KEY = None → locations w = JArr [] → faults w = [] →
     (∀ i, 0 < i < length rs → reads_back (JArr (rev (take i rs)))) →
     let w' := run (appendAll rs) w in
     locations w' = JArr (rev rs)
     ∧ length (rev rs) = length rs
     ∧ (rs ≠ [] →
        items w' !! LOCATIONS_KEY = Some (JSON_stringify (JArr (rev rs))))).
Proof.
  split.
  - intros w r L Hp Hq. unfold run, outcome.
    rewrite (appendRecord_step w r L Hp Hq). settle. auto.
  - intros w rs Hs Hl Hf Hrs.
    destruct (appendAll_run rs w [] Hf Hl Hs) as (_ & Hloc & Hst).
    + intros Hne. contradiction.
    + intros i Hi. rewrite app_nil_r. auto.
    + rewrite app_nil_r in Hloc, Hst. split; [assumption|].
      split; [apply length_rev|].
      intros Hne. unfold stored in Hst.
      destruct (rev rs) as [|x l] eqn:E; [|assumption].
      apply (f_equal (@length json)) in E. rewrite length_rev in E.
      destruct rs; [contradiction|discriminate].
Qed.

Lemma getLocation_try_outcome (r : json) (w : World) :
  outcome (getLocation_try r) (run (setIsLoading true) w) =
  if rejects_at 0 w then Throw StorageError
  else match currentLocations w with
       | None => Throw SyntaxError
       | Some v =>
           match iterate v with
           | None => Throw TypeError
           | Some _ => if rejects_at 1 w then Throw StorageError else Normal ()
           end
       end.
Proof.
  destruct w as [sw ld locs st fs tr]. unfold currentLocations. exec.
  destruct fs as [|[] [|[] fs]]; try reflexivity;
    (destruct (st !! LOCATIONS_KEY) as [text|];
     [destruct (String.eqb text ""); [|destruct (JSON_parse text) as [v|]]|]);
    cbn [iterate]; try (destruct (iterate v)); reflexivity.
Qed.

(** C2: when the [try] block of [getLocation] throws, at the read, at the
    parse, at the spread or at the write, [getLocation] itself completes
    normally, the storage and the in-memory list are what they were, the
    error is logged, and exactly one alert is shown, after the storage calls
    made so far. *)
Theorem appendRecord_failure (w : World) (r : json) (e : exn) :
  outcome (getLocation_try r) (run (setIsLoading true) w) = Throw e →
  let w' := run (appendRecord r) w in
  outcome (appendRecord r) w = Normal ()
  ∧ items w' = items w
  ∧ locations w' = locations w
  ∧ alerts (new_events w w') = 1
  ∧ ∃ calls,
      new_events w w' =
        calls ++ [ConsoleError "Failed to save new location to AsyncStorage" e;
                  AlertShown "Erro" "Não foi possível salvar a nova localização."]
      ∧ alerts calls = 0.
Proof.
  rewrite getLocation_try_outcome. unfold run, outcome. rewrite appendRecord_eq.
  cbv zeta. intros He.
  destruct (rejects_at 0 w).
  { inversion He; subst e. settle. cbn. repeat split.
    exists [StorageGet LOCATIONS_KEY]. auto. }
  destruct (currentLocations w) as [v|].
  2:{ inversion He; subst e. settle. cbn. repeat split.
      exists [StorageGet LOCATIONS_KEY]. auto. }
  destruct (iterate v) as [rest|].
  2:{ inversion He; subst e. settle. cbn. repeat split.
      exists [StorageGet LOCATIONS_KEY]. auto. }
  destruct (rejects_at 1 w); [|discriminate].
  inversion He; subst e. settle. cbn. repeat split.
  exists [StorageGet LOCATIONS_KEY;
          StorageSet LOCATIONS_KEY (JSON_stringify (JArr (r :: rest)))]. auto.
Qed.

Lemma quiet_rejects (n i : nat) (w : World) :
  quiet n w = true → i < n → rejects_at i w = false.
Proof.
  unfold quiet, rejects_at. generalize (faults w). intros fs. revert n i.
  induction fs as [|b fs IH]; intros [|n] [|i]; cbn; try lia; try reflexivity.
  - destruct b; [discriminate|reflexivity].
  - destruct b; [discriminate|]. intros Hq Hi. apply (IH n i Hq). lia.
Qed.

(** C7: a capture of [r] over a store without the locations key, then
    [loadLocations], with no call rejected and the text of [[r]] reading back
    as [[r]], leaves exactly [[r]] as the in-memory list; and so does
    [loadLocations] in a component mounted afresh over the store the capture
    left. *)
Theorem append_then_load (w : World) (r : json) :
  items w !! LOCATIONS_KEY = None →
  quiet 3 w = true →
  reads_back (JArr [r]) →
  locations (run (appendRecord r;; loadLocations) w) = JArr [r]
  ∧ ∀ fs, locations (run loadLocations (mounted (items (run (appendRecord r) w)) (false :: fs)))
          = JArr [r].
Proof.
  intros Hs Hq [_ Hb].
  assert (Hp : persisted w []) by (unfold persisted; rewrite Hs; reflexivity).
  assert (Hq2 : quiet 2 w = true).
  { unfold quiet in *. destruct (faults w) as [|[] [|[] fs]]; cbn in *; auto. }
  pose proof (quiet_rejects 3 2 w Hq) as H2.
  unfold run. split.
  - unfold mbind, Async_bind. rewrite (appendRecord_step w r [] Hp Hq2).
    rewrite loadLocations_eq. cbv zeta. cbn [snd].
    unfold rejects, rejects_at in *. cbn [faults items].
    replace (nth 0 (drop 2 (faults w)) false) with (nth 2 (faults w) false)
      by (destruct (faults w) as [|? [|? ?]]; reflexivity).
    rewrite H2 by lia. rewrite lookup_insert_eq, Hb. reflexivity.
  - intros fs. rewrite (appendRecord_step w r [] Hp Hq2).
    rewrite loadLocations_eq. cbv zeta. cbn [snd items].
    unfold mounted, rejects, rejects_at. cbn [faults items nth].
    rewrite lookup_insert_eq, Hb. reflexivity.
Qed.

(** *** Which keys are touched *)

(** C9: [onToggleSwitch] writes under the dark-mode key only and leaves every
    other key, the locations key among them, as it was; [getLocation] writes
    under the locations key only and leaves every other key, the dark-mode
    key among them, as it was; [loadDarkMode] and [loadLocations] write
    nothing and leave the storage as it was. *)
Theorem storage_frame (w : World) :
  (let w' := run onToggleSwitch w in
   Forall (λ e, event_key e = Some DARK_MODE_KEY) (writes (new_events w w'))
   ∧ (∀ k, k ≠ DARK_MODE_KEY → items w' !! k = items w !! k)
   ∧ items w' !! LOCATIONS_KEY = items w !! LOCATIONS_KEY)
  ∧ (∀ d, let w' := run (getLocation d) w in
     Forall (λ e, event_key e = Some LOCATIONS_KEY) (writes (new_events w w'))
     ∧ (∀ k, k ≠ LOCATIONS_KEY → items w' !! k = items w !! k)
     ∧ items w' !! DARK_MODE_KEY = items w !! DARK_MODE_KEY)
  ∧ (let w' := run loadDarkMode w in
     writes (new_events w w') = [] ∧ items w' = items w)
  ∧ (let w' := run loadLocations w in
     writes (new_events w w') = [] ∧ items w' = items w).
Proof.
  assert (Hne : DARK_MODE_KEY ≠ LOCATIONS_KEY) by discriminate.
  split; [|split; [|split]].
  - unfold run. rewrite onToggleSwitch_eq. cbv zeta.
    destruct (rejects w); settle; cbn [event_key].
    + repeat split; auto.
    + split; [auto|]. split.
      * intros k Hk. apply lookup_insert_ne. congruence.
      * apply lookup_insert_ne. assumption.
  - intros d. unfold run, getLocation. rewrite appendRecord_eq. cbv zeta.
    destruct (rejects_at 0 w); [settle; cbn; auto|].
    destruct (currentLocations w) as [v|]; [|settle; cbn; auto].
    destruct (iterate v) as [rest|]; [|settle; cbn; auto].
    destruct (rejects_at 1 w); settle; cbn.
    + repeat split; auto.
    + split; [auto|]. split.
      * intros k Hk. apply lookup_insert_ne. congruence.
      * apply lookup_insert_ne. congruence.
  - unfold run. rewrite loadDarkMode_eq. cbv zeta.
    destruct (rejects w); [settle; auto|].
    destruct (items w !! DARK_MODE_KEY) as [text|]; [|settle; auto].
    destruct (JSON_parse text); settle; auto.
  - unfold run. rewrite loadLocations_eq. cbv zeta.
    destruct (rejects w); [settle; auto|].
    destruct (items w !! LOCATIONS_KEY) as [text|]; [|settle; auto].
    destruct (JSON_parse text); settle; auto.
Qed.

Lemma extends_bind (P : event → Prop) (m k : Async unit) :
  extends P m → extends P k → extends P (m;; k).
Proof.
  intros Hm Hk w. specialize (Hm w). unfold run, outcome in *.
  unfold mbind, Async_bind. destruct (m w) as [c w1]. cbn [fst snd] in Hm.
  destruct Hm as (-> & evs1 & Ht1 & HP1).
  destruct (Hk w1) as (Hc & evs2 & Ht2 & HP2). unfold run, outcome in *.
  split; [assumption|].
  exists (evs1 ++ evs2). rewrite Ht2, Ht1, <- app_assoc.
  split; [reflexivity|]. apply Forall_app; auto.
Qed.

Lemma extends_ret (P : event → Prop) : extends P (mret ()).
Proof.
  intros w. split; [reflexivity|]. exists []. rewrite app_nil_r. split; [reflexivity|constructor].
Qed.

Ltac lawful_events :=
  repeat first
    [ apply Forall_nil
    | apply Forall_cons; split
    | exact I
    | (left; reflexivity)
    | (right; reflexivity)
    | (left; split; [reflexivity|eexists; reflexivity])
    | (right; split; [reflexivity|eexists; reflexivity]) ].

Lemma loadDarkMode_lawful : extends lawful loadDarkMode.
Proof.
  intros w. unfold run, outcome. rewrite loadDarkMode_eq. cbv zeta.
  split; [reflexivity|].
  destruct (rejects w); [|destruct (items w !! DARK_MODE_KEY) as [text|];
                          [destruct (JSON_parse text)|]];
    cbn [snd trace]; eexists; (split; [reflexivity|]); lawful_events.
Qed.

Lemma loadLocations_lawful : extends lawful loadLocations.
Proof.
  intros w. unfold run, outcome. rewrite loadLocations_eq. cbv zeta.
  split; [reflexivity|].
  destruct (rejects w); [|destruct (items w !! LOCATIONS_KEY) as [text|];
                          [destruct (JSON_parse text)|]];
    cbn [snd trace]; eexists; (split; [reflexivity|]); lawful_events.
Qed.

Lemma onToggleSwitch_lawful : extends lawful onToggleSwitch.
Proof.
  intros w. unfold run, outcome. rewrite onToggleSwitch_eq. cbv zeta.
  split; [reflexivity|].
  destruct (rejects w); cbn [snd trace]; eexists; (split; [reflexivity|]); lawful_events.
Qed.

Lemma appendRecord_lawful (r : json) : extends lawful (appendRecord r).
Proof.
  intros w. unfold run, outcome. rewrite appendRecord_eq. cbv zeta.
  split; [reflexivity|].
  destruct (rejects_at 0 w); [|destruct (currentLocations w) as [v|];
    [destruct (iterate v) as [rest|]; [destruct (rejects_at 1 w)|]|]];
    cbn [snd trace app]; eexists; (split; [reflexivity|]); lawful_events.
Qed.

Lemma interact_lawful (acts : list action) : extends lawful (interact acts).
Proof.
  induction acts as [|a acts IH]; cbn [interact].
  - apply extends_ret.
  - apply extends_bind; [|assumption].
    destruct a; cbn [handle]; [apply onToggleSwitch_lawful|apply appendRecord_lawful].
Qed.

(** C6, as the code has it: through a whole session, from any state of the
    component and of the storage and whichever calls are rejected, every
    storage call is on the key ["@darkMode"] or ["@locations"], every write
    under ["@darkMode"] is the JSON text of a boolean, and every write under
    ["@locations"] is the JSON text of an array. *)
Theorem session_storage_keys (acts : list action) (w : World) :
  Forall lawful (new_events w (run (session acts) w)).
Proof.
  assert (Hs : extends lawful (session acts)).
  { unfold session, mount. apply extends_bind; [apply extends_bind|].
    - apply loadDarkMode_lawful.
    - apply loadLocations_lawful.
    - apply interact_lawful. }
  destruct (Hs w) as (_ & evs & Ht & HP).
  unfold new_events. rewrite Ht, drop_app_length. assumption.
Qed.

(** *** Record ids *)

(** C8, where the code falls short: the id is made of [Date.now()] and of
    seven base-36 digits of one [Math.random()] draw and of nothing else, so
    two captures that agree on both carry the same id, whatever their other
    draws. *)
Theorem newLocation_id_collides (d1 d2 : Draws) :
  Date_now d1 = Date_now d2 →
  random_id d1 = random_id d2 →
  record_id (newLocation d1) = record_id (newLocation d2).
Proof.
  intros Hnow Hrand. unfold newLocation, record_id. cbn [field String.eqb Ascii.eqb Bool.eqb].
  rewrite Hnow, Hrand. reflexivity.
Qed.

(** *** A session of captures *)

Lemma interact_captures (ds : list Draws) :
  interact (PressCapture <$> ds) = appendAll (newLocation <$> ds).
Proof.
  induction ds as [|d ds IH]; [reflexivity|].
  cbn [fmap list_fmap interact appendAll handle] in *. rewrite IH. reflexivity.
Qed.

(** The button pressed once per draw, after mounting over an empty storage
    with no call rejected. *)
Lemma session_captures (ds : list Draws) :
  (∀ i, 0 < i < length ds → reads_back (JArr (rev (take i (newLocation <$> ds))))) →
  locations (run (session (PressCapture <$> ds)) (mounted ∅ []))
  = JArr (rev (newLocation <$> ds)).
Proof.
  intros Hb. unfold session, run, mount, mbind, Async_bind.
  rewrite loadDarkMode_eq. cbv zeta. cbn [snd fst].
  rewrite loadLocations_eq. cbv zeta. cbn [snd fst].
  unfold mounted, rejects, rejects_at. cbn [faults nth items tail]. rewrite !lookup_empty.
  cbn [isSwitchOn isLoading locations trace]. rewrite interact_captures.
  destruct (appendAll_run (newLocation <$> ds)
              (mkWorld (JBool false) false (JArr []) ∅ []
                 (([] ++ [StorageGet DARK_MODE_KEY]) ++ [StorageGet LOCATIONS_KEY])) [])
    as (_ & Hl & _); try reflexivity.
  - intros Hne. contradiction.
  - intros i Hi. rewrite app_nil_r. apply Hb. rewrite length_fmap in Hi. assumption.
  - rewrite app_nil_r in Hl. exact Hl.
Qed.

End Facts.

(** ** The statements at work on the reference platform *)

Import Sample.
Local Abbreviation engine := Reference.engine.

Lemma appendRecord_prepends_witness :
  (let w := with_locations "[true]" in
   let w' := run (appendRecord (platform := engine) r1) w in
   locations w' = JArr [r1; JBool true]
   ∧ items w' =
       <[LOCATIONS_KEY := JSON_stringify (Platform := engine) (JArr [r1; JBool true])]>
         (items w))
  ∧ (let w' := run (appendAll (platform := engine) [r1; r3]) blank in
     locations w' = JArr [r3; r1]
     ∧ items w' !! LOCATIONS_KEY
       = Some (JSON_stringify (Platform := engine) (JArr [r3; r1]))).
Proof.
  destruct (appendRecord_prepends (platform := engine)) as [Hone Hall]. split.
  - destruct (Hone (with_locations "[true]") r1 [JBool true]) as (_ & Hi & Hl & _).
    + split; [discriminate|vm_compute; reflexivity].
    + reflexivity.
    + split; assumption.
  - destruct (Hall blank [r1; r3]) as (Hl & _ & Hi).
    + reflexivity.
    + reflexivity.
    + reflexivity.
    + intros [|[|i]] Hi; cbn in Hi; try lia.
      split; [vm_compute; discriminate|vm_compute; reflexivity].
    + split; [exact Hl|apply Hi; discriminate].
Defined.

Lemma appendRecord_failure_witness :
  let w := with_locations "5" in
  let w' := run (appendRecord (platform := engine) r1) w in
  outcome (appendRecord (platform := engine) r1) w = Normal ()
  ∧ items w' = items w
  ∧ locations w' = locations w
  ∧ alerts (new_events w w') = 1
  ∧ ∃ calls,
      new_events w w' =
        calls ++ [ConsoleError "Failed to save new location to AsyncStorage" TypeError;
                  AlertShown "Erro" "Não foi possível salvar a nova localização."]
      ∧ alerts calls = 0.
Proof.
  apply (appendRecord_failure (platform := engine) (with_locations "5") r1 TypeError).
  vm_compute. reflexivity.
Defined.

Lemma loadLocations_cases_witness :
  locations (run (loadLocations (platform := engine)) (with_locations "[1,2]"))
  = JArr [JNum 1; JNum 2]
  ∧ locations (run (loadLocations (platform := engine)) blank) = JArr []
  ∧ locations (run (loadLocations (platform := engine)) failing) = JArr []
  ∧ alerts (new_events failing (run (loadLocations (platform := engine)) failing)) = 1
  ∧ alerts (new_events (with_locations "[1,") (run (loadLocations (platform := engine)) (with_locations "[1,"))) = 1.
Proof.
  destruct (loadLocations_cases (platform := engine) (with_locations "[1,2]")) as (_ & Hok & _).
  destruct (loadLocations_cases (platform := engine) blank) as (_ & _ & Habsent & _).
  destruct (loadLocations_cases (platform := engine) failing) as (_ & _ & _ & Hread).
  destruct (loadLocations_cases (platform := engine) (with_locations "[1,")) as (_ & _ & _ & Hparse).
  split; [|split; [|split; [|split]]].
  - apply (Hok eq_refl "[1,2]" (JArr [JNum 1; JNum 2])); vm_compute; reflexivity.
  - apply Habsent; reflexivity.
  - apply Hread. left. reflexivity.
  - apply Hread. left. reflexivity.
  - apply Hparse. right. exists "[1,". split; vm_compute; reflexivity.
Defined.

Lemma loadDarkMode_cases_witness :
  isSwitchOn (run (loadDarkMode (platform := engine)) (with_dark_mode "true")) = JBool true
  ∧ isSwitchOn (run (loadDarkMode (platform := engine)) blank) = JBool false
  ∧ isSwitchOn (run (loadDarkMode (platform := engine)) failing) = JBool false
  ∧ isSwitchOn (run (loadDarkMode (platform := engine)) (with_dark_mode "tru")) = JBool false.
Proof.
  destruct (loadDarkMode_cases (platform := engine) (with_dark_mode "true") eq_refl)
    as (_ & Hok & _).
  destruct (loadDarkMode_cases (platform := engine) blank eq_refl) as (_ & _ & Habsent & _).
  destruct (loadDarkMode_cases (platform := engine) failing eq_refl) as (_ & _ & _ & Hread).
  destruct (loadDarkMode_cases (platform := engine) (with_dark_mode "tru") eq_refl)
    as (_ & _ & _ & Hparse).
  split; [|split; [|split]].
  - apply (Hok eq_refl "true" true); vm_compute; reflexivity.
  - apply Habsent; reflexivity.
  - apply Hread. left. reflexivity.
  - apply Hparse. right. exists "tru". split; vm_compute; reflexivity.
Defined.

Lemma onToggleSwitch_memory_witness :
  let w' := run (onToggleSwitch (platform := engine)) failing in
  isSwitchOn w' = JBool true
  ∧ items w' = items failing
  ∧ alerts (new_events failing w') = 1.
Proof.
  destruct (onToggleSwitch_memory (platform := engine) failing) as (_ & Hm & Hrej & _).
  destruct (Hrej eq_refl) as (Hi & Ha & _).
  split; [exact Hm|]. split; assumption.
Defined.

Lemma append_then_load_witness :
  locations (run (appendRecord (platform := engine) r1;; loadLocations (platform := engine)) blank)
  = JArr [r1]
  ∧ ∀ fs,
      locations
        (run (loadLocations (platform := engine))
           (mounted (items (run (appendRecord (platform := engine) r1) blank)) (false :: fs)))
      = JArr [r1].
Proof.
  apply (append_then_load (platform := engine) blank r1).
  - reflexivity.
  - reflexivity.
  - split; [vm_compute; discriminate|vm_compute; reflexivity].
Defined.

Lemma newLocation_id_collides_witness :
  record_id (newLocation (platform := engine) d1) = record_id (newLocation (platform := engine) d2).
Proof.
  apply (newLocation_id_collides (platform := engine) d1 d2); reflexivity.
Defined.

Lemma loadLocations_no_validation_witness :
  let w := with_locations "5" in
  let w' := run (loadLocations (platform := engine)) w in
  locations w' = JNum 5 ∧ new_events w w' = [StorageGet LOCATIONS_KEY].
Proof.
  destruct (loadLocations_no_validation (platform := engine) (with_locations "5") "5")
    as (Hinstall & _ & _).
  - reflexivity.
  - reflexivity.
  - apply Hinstall. vm_compute. reflexivity.
Defined.

(** C6 as the spec words it, with the keys ["darkMode"] and ["locations"],
    fails on the first storage call of a session: flipping the switch on a
    blank device reads and writes ["@darkMode"], and ["darkMode"] stays
    absent. *)
Lemma session_storage_keys_unprefixed_fails :
  let w' := run (session (platform := engine) [ToggleSwitch]) blank in
  ¬ Forall (lawful_unprefixed (platform := engine)) (new_events blank w')
  ∧ items w' !! "darkMode" = None
  ∧ items w' !! "@darkMode" = Some "true".
Proof.
  cbv zeta. split; [|split; vm_compute; reflexivity].
  intros Hall.
  assert (Hev : new_events blank (run (session (platform := engine) [ToggleSwitch]) blank)
                = [StorageGet "@darkMode"; StorageGet "@locations";
                   StorageSet "@darkMode" "true"]) by (vm_compute; reflexivity).
  rewrite Hev in Hall. apply Forall_cons in Hall as [[Hk | Hk] _]; discriminate.
Qed.

(** Two presses in the same millisecond with the same id draw: the list
    holds two records, different in their timestamps, under one id. *)
Lemma same_millisecond_same_id :
  locations (run (session (platform := engine) [PressCapture d1; PressCapture d2]) blank)
  = JArr [r2; r1]
  ∧ record_id r1 = Some (JStr "loc-1730000000000-i")
  ∧ record_id r2 = Some (JStr "loc-1730000000000-i")
  ∧ field "timestamp" (match r1 with JObj fs => fs | _ => [] end)
    ≠ field "timestamp" (match r2 with JObj fs => fs | _ => [] end).
Proof.
  split; [vm_compute; reflexivity|].
  split; [vm_compute; reflexivity|]. split; [vm_compute; reflexivity|].
  vm_compute. discriminate.
Qed.

(** On the reference platform, id draws that differ collide as well once
    they agree on their first seven base-36 digits. *)
Lemma close_draws_same_id :
  PrimFloat.eqb (random_id d4) (random_id d5) = false
  ∧ record_id (newLocation (platform := engine) d4) = Some (JStr "loc-1730000000456-i000000")
  ∧ record_id (newLocation (platform := engine) d5) = Some (JStr "loc-1730000000456-i000000").
Proof. repeat split; vm_compute; reflexivity. Qed.

(** ** Further properties of [App.js] *)

Ltac settle' :=
  unfold new_events, alerts, writes, console_errors;
  cbn [trace locations items isSwitchOn isLoading faults fst snd];
  rewrite ?drop_app_length;
  cbn [List.filter is_alert is_write is_console_error length app].

Section Further.
Context {platform : Platform}.

(** *** Round trips through the storage *)

(** X1: a toggle whose write is accepted, followed by [loadDarkMode] in a
    component mounted afresh over the storage it left, brings back the value
    the toggle had set, as long as the text of that boolean parses back to
    it. *)
Theorem toggle_then_reload (w : World) (fs : list bool) :
  rejects w = false →
  (let b := negb (truthy (isSwitchOn w)) in
   JSON_parse (JSON_stringify (JBool b)) = Some (JBool b)) →
  let w1 := run onToggleSwitch w in
  isSwitchOn (run loadDarkMode (mounted (items w1) (false :: fs))) = isSwitchOn w1
  ∧ isSwitchOn w1 = JBool (negb (truthy (isSwitchOn w))).
Proof.
  cbv zeta. intros Hr Hb. unfold run. rewrite onToggleSwitch_eq. cbv zeta. rewrite Hr.
  cbn [snd items isSwitchOn]. rewrite loadDarkMode_eq. cbv zeta.
  unfold mounted, rejects, rejects_at. cbn [faults nth items snd isSwitchOn].
  rewrite lookup_insert_eq, Hb. auto.
Qed.

(** A capture either shows one alert and changes neither the storage nor
    the list, or shows none, puts [r] in front of what it read and leaves
    the text of the new list in the storage. *)
Lemma appendRecord_outcomes (r : json) (w : World) :
  let w' := run (appendRecord r) w in
  (alerts (new_events w w') = 1 ∧ items w' = items w ∧ locations w' = locations w)
  ∨ (alerts (new_events w w') = 0
     ∧ ∃ v rest, currentLocations w = Some v ∧ iterate v = Some rest
        ∧ locations w' = JArr (r :: rest)
        ∧ items w' = <[LOCATIONS_KEY := JSON_stringify (JArr (r :: rest))]> (items w)).
Proof.
  unfold run. rewrite appendRecord_eq. cbv zeta.
  destruct (rejects_at 0 w); [left; settle'; repeat split|].
  destruct (currentLocations w) as [v|] eqn:Hv; [|left; settle'; repeat split].
  destruct (iterate v) as [rest|] eqn:Hrest; [|left; settle'; repeat split].
  destruct (rejects_at 1 w); [left; settle'; repeat split|].
  right. settle'. split; [reflexivity|]. exists v, rest. repeat split. assumption.
Qed.

(** X2: whenever a capture shows no alert, the in-memory list begins with the
    new record and the storage holds exactly the text of the in-memory list;
    whenever a toggle shows no alert, the storage holds exactly the text of
    the in-memory preference. *)
Theorem memory_matches_storage (w : World) :
  (∀ r, let w' := run (appendRecord r) w in
        alerts (new_events w w') = 0 →
        (∃ rest, locations w' = JArr (r :: rest))
        ∧ items w' !! LOCATIONS_KEY = Some (JSON_stringify (locations w')))
  ∧ (let w' := run onToggleSwitch w in
     alerts (new_events w w') = 0 →
     items w' !! DARK_MODE_KEY = Some (JSON_stringify (isSwitchOn w'))).
Proof.
  split.
  - intros r. cbv zeta. intros Ha.
    destruct (appendRecord_outcomes r w) as [(Hone & _) | (_ & v & rest & _ & _ & Hl & Hi)].
    + rewrite Hone in Ha. discriminate.
    + rewrite Hi, Hl, lookup_insert_eq. eauto.
  - unfold run. rewrite onToggleSwitch_eq. cbv zeta.
    destruct (rejects w); settle'; [discriminate|].
    intros _. apply lookup_insert_eq.
Qed.

(** X3: a capture that shows no alert, over whatever the storage held,
    followed by [loadLocations] in a component mounted afresh over the
    storage it left, brings back the in-memory list the capture had
    installed, as long as the text of that list parses back to it. *)
Theorem capture_then_reload (w : World) (r : json) (fs : list bool) :
  let w1 := run (appendRecord r) w in
  alerts (new_events w w1) = 0 →
  JSON_parse (JSON_stringify (locations w1)) = Some (locations w1) →
  locations (run loadLocations (mounted (items w1) (false :: fs))) = locations w1.
Proof.
  cbv zeta. intros Ha Hb.
  destruct (appendRecord_outcomes r w) as [(Hone & _) | (_ & v & rest & _ & _ & Hl & Hi)].
  { rewrite Hone in Ha. discriminate. }
  unfold run at 1. rewrite loadLocations_eq. cbv zeta.
  unfold mounted, rejects, rejects_at. cbn [faults nth items snd locations].
  rewrite Hi, lookup_insert_eq. rewrite Hl in Hb |- *. rewrite Hb. reflexivity.
Qed.

(** *** How the functions compose *)

(** X4: two toggles in a row leave the truth value of the preference, and so
    the theme, as they were, whatever the storage does; what is left in
    memory is that truth value as a boolean, and it is what the storage
    holds when the second write is accepted. *)
Theorem toggle_twice (w : World) :
  let w1 := run onToggleSwitch w in
  let w2 := run (onToggleSwitch;; onToggleSwitch) w in
  truthy (isSwitchOn w1) = negb (truthy (isSwitchOn w))
  ∧ isSwitchOn w2 = JBool (truthy (isSwitchOn w))
  ∧ (∀ (D C : Type) (DefaultTheme : D) (light dark : C),
       themeEffect DefaultTheme light dark w2 = themeEffect DefaultTheme light dark w)
  ∧ (rejects_at 1 w = false →
     items w2 !! DARK_MODE_KEY = Some (JSON_stringify (JBool (truthy (isSwitchOn w))))).
Proof.
  cbv zeta. unfold run, mbind, Async_bind. rewrite onToggleSwitch_eq. cbv zeta.
  cbn [fst snd]. rewrite onToggleSwitch_eq. cbv zeta. cbn [snd].
  assert (Hnn : ∀ v, negb (truthy (JBool (negb (truthy v)))) = truthy v).
  { intros v. cbn [truthy]. apply negb_involutive. }
  assert (H2 : ∀ w0, rejects (if rejects w then w0 else w0) = rejects w0)
    by (intros; destruct (rejects w); reflexivity).
  split; [destruct (rejects w); reflexivity|].
  destruct (rejects w) eqn:Hr0;
    cbn [isSwitchOn isLoading locations items faults trace];
    rewrite Hnn; unfold rejects, rejects_at; cbn [faults];
    replace (nth 0 (tail (faults w)) false) with (nth 1 (faults w) false)
      by (destruct (faults w) as [|? [|? ?]]; reflexivity);
    (split; [destruct (nth 1 (faults w) false); reflexivity|]);
    (split; [intros D C DefaultTheme light dark; unfold themeEffect;
             destruct (nth 1 (faults w) false); cbn [isSwitchOn truthy];
             destruct (truthy (isSwitchOn w)); reflexivity|]);
    intros ->; cbn [items]; apply lookup_insert_eq.
Qed.

(** *** Sessions *)

Lemma run_bind (m k : Async unit) (w : World) :
  outcome m w = Normal () →
  run (m;; k) w = run k (run m w) ∧ outcome (m;; k) w = outcome k (run m w).
Proof.
  unfold run, outcome, mbind, Async_bind. destruct (m w) as [c w1]. cbn [fst snd].
  intros ->. auto.
Qed.

Lemma handle_normal (a : action) (w : World) : outcome (handle a) w = Normal ().
Proof.
  unfold outcome. destruct a; cbn [handle]; unfold getLocation;
    rewrite ?onToggleSwitch_eq, ?appendRecord_eq; reflexivity.
Qed.

Lemma interact_cons (a : action) (acts : list action) (w : World) :
  run (interact (a :: acts)) w = run (interact acts) (run (handle a) w).
Proof. cbn [interact]. apply run_bind, handle_normal. Qed.

Lemma loadDarkMode_normal (w : World) : outcome loadDarkMode w = Normal ().
Proof. unfold outcome. rewrite loadDarkMode_eq. reflexivity. Qed.

Lemma loadLocations_normal (w : World) : outcome loadLocations w = Normal ().
Proof. unfold outcome. rewrite loadLocations_eq. reflexivity. Qed.

Lemma mount_run (w : World) :
  run mount w = run loadLocations (run loadDarkMode w) ∧ outcome mount w = Normal ().
Proof.
  unfold mount.
  destruct (run_bind loadDarkMode loadLocations w (loadDarkMode_normal w)) as [-> ->].
  split; [reflexivity|apply loadLocations_normal].
Qed.

Lemma session_run (acts : list action) (w : World) :
  run (session acts) w = run (interact acts) (run loadLocations (run loadDarkMode w)).
Proof.
  unfold session. destruct (mount_run w) as [Hr Hc].
  destruct (run_bind mount (interact acts) w Hc) as [-> _]. rewrite Hr. reflexivity.
Qed.

Lemma handle_isLoading (a : action) (w : World) :
  isLoading w = false → isLoading (run (handle a) w) = false.
Proof.
  intros Hl. unfold run. destruct a; cbn [handle]; unfold getLocation.
  - rewrite onToggleSwitch_eq. cbv zeta. destruct (rejects w); assumption.
  - rewrite appendRecord_eq. cbv zeta.
    destruct (rejects_at 0 w); [reflexivity|].
    destruct (currentLocations w) as [v|]; [|reflexivity].
    destruct (iterate v); [|reflexivity].
    destruct (rejects_at 1 w); reflexivity.
Qed.

Lemma loadLocations_isLoading (w : World) : isLoading (run loadLocations w) = false.
Proof.
  unfold run. rewrite loadLocations_eq. cbv zeta.
  destruct (rejects w); [reflexivity|].
  destruct (items w !! LOCATIONS_KEY) as [text|]; [|reflexivity].
  destruct (JSON_parse text); reflexivity.
Qed.

(** X5: the loading flag is down after a capture and after [loadLocations],
    however they end, and after a whole session: the button never keeps
    spinning. *)
Theorem loading_flag_cleared (w : World) :
  (∀ d, isLoading (run (getLocation d) w) = false)
  ∧ isLoading (run loadLocations w) = false
  ∧ (∀ acts, isLoading (run (session acts) w) = false).
Proof.
  split; [|split].
  - intros d. unfold run, getLocation. rewrite appendRecord_eq. cbv zeta.
    destruct (rejects_at 0 w); [reflexivity|].
    destruct (currentLocations w) as [v|]; [|reflexivity].
    destruct (iterate v); [|reflexivity].
    destruct (rejects_at 1 w); reflexivity.
  - apply loadLocations_isLoading.
  - intros acts. rewrite session_run.
    generalize (loadLocations_isLoading (run loadDarkMode w)).
    generalize (run loadLocations (run loadDarkMode w)). clear w.
    induction acts as [|a acts IH]; intros w Hl; [exact Hl|].
    rewrite interact_cons. apply IH, handle_isLoading, Hl.
Qed.

Lemma reports_bind (n1 n2 : nat) (m k : Async unit) :
  reports n1 m → reports n2 k → reports (n1 + n2) (m;; k).
Proof.
  intros Hm Hk w. destruct (Hm w) as (Hc & evs1 & Ht1 & He1 & Hn1).
  destruct (run_bind m k w Hc) as [-> ->].
  destruct (Hk (run m w)) as (Hc2 & evs2 & Ht2 & He2 & Hn2).
  split; [assumption|]. exists (evs1 ++ evs2).
  rewrite Ht2, Ht1, <- app_assoc. split; [reflexivity|].
  unfold alerts, console_errors in *. rewrite !List.filter_app, !length_app. lia.
Qed.

Lemma loadDarkMode_reports : reports 1 loadDarkMode.
Proof.
  intros w. unfold run, outcome. rewrite loadDarkMode_eq. cbv zeta.
  split; [reflexivity|].
  destruct (rejects w); [|destruct (items w !! DARK_MODE_KEY) as [text|];
                          [destruct (JSON_parse text)|]];
    cbn [snd trace]; eexists; (split; [reflexivity|]); cbn; lia.
Qed.

Lemma loadLocations_reports : reports 1 loadLocations.
Proof.
  intros w. unfold run, outcome. rewrite loadLocations_eq. cbv zeta.
  split; [reflexivity|].
  destruct (rejects w); [|destruct (items w !! LOCATIONS_KEY) as [text|];
                          [destruct (JSON_parse text)|]];
    cbn [snd trace]; eexists; (split; [reflexivity|]); cbn; lia.
Qed.

Lemma handle_reports (a : action) : reports 1 (handle a).
Proof.
  intros w. unfold run, outcome. destruct a; cbn [handle]; unfold getLocation.
  - rewrite onToggleSwitch_eq. cbv zeta. split; [reflexivity|].
    destruct (rejects w); cbn [snd trace]; eexists; (split; [reflexivity|]); cbn; lia.
  - rewrite appendRecord_eq. cbv zeta. split; [reflexivity|].
    destruct (rejects_at 0 w); [|destruct (currentLocations w) as [v|];
      [destruct (iterate v) as [rest|]; [destruct (rejects_at 1 w)|]|]];
      cbn [snd trace app]; eexists; (split; [reflexivity|]); cbn; lia.
Qed.

Lemma interact_reports (acts : list action) : reports (length acts) (interact acts).
Proof.
  induction acts as [|a acts IH]; cbn [interact length].
  - intros w. split; [reflexivity|]. exists []. rewrite app_nil_r. cbn. auto.
  - apply (reports_bind 1 (length acts)); [apply handle_reports|assumption].
Qed.

(** X6: a session never throws, whatever the storage holds and whichever
    calls are rejected; every failure in it is logged once and alerted once,
    and there is at most one per load and per user action. *)
Theorem session_reports_failures (acts : list action) (w : World) :
  let evs := new_events w (run (session acts) w) in
  outcome (session acts) w = Normal ()
  ∧ alerts evs = console_errors evs
  ∧ alerts evs ≤ 2 + length acts.
Proof.
  assert (Hs : reports (1 + 1 + length acts) (session acts)).
  { unfold session, mount. apply reports_bind; [apply reports_bind|].
    - apply loadDarkMode_reports.
    - apply loadLocations_reports.
    - apply interact_reports. }
  destruct (Hs w) as (Hc & evs & Ht & He & Hn). cbv zeta.
  unfold new_events. rewrite Ht, drop_app_length. auto.
Qed.

(** *** Ill-shaped contents *)

Lemma unusable_current (w : World) :
  unusable w → match currentLocations w with
               | None => True
               | Some v => iterate v = None
               end.
Proof.
  intros (text & Hs & Hne & Hp). unfold currentLocations. rewrite Hs, Hne. exact Hp.
Qed.

(** A user action on an unusable store. *)
Lemma handle_unusable (a : action) (w : World) :
  unusable w →
  let w' := run (handle a) w in
  unusable w'
  ∧ items w' !! LOCATIONS_KEY = items w !! LOCATIONS_KEY
  ∧ locations w' = locations w
  ∧ ∃ evs, trace w' = trace w ++ evs
           ∧ (if is_capture a then 1 else 0) ≤ alerts evs.
Proof.
  intros Hu. pose proof (unusable_current w Hu) as Hc.
  assert (Hframe : ∀ w', items w' !! LOCATIONS_KEY = items w !! LOCATIONS_KEY → unusable w').
  { intros w' Hi. destruct Hu as (text & Hs & Hrest). exists text. rewrite Hi. auto. }
  cbv zeta. unfold run. destruct a; cbn [handle is_capture]; unfold getLocation.
  - rewrite onToggleSwitch_eq. cbv zeta.
    assert (Hk : ∀ text, <[DARK_MODE_KEY := text]> (items w) !! LOCATIONS_KEY
                         = items w !! LOCATIONS_KEY)
      by (intros; apply lookup_insert_ne; discriminate).
    destruct (rejects w); cbn [snd items locations trace];
      (split; [apply Hframe; cbn [items]; auto|]);
      (split; [auto|]); (split; [reflexivity|]); eexists; (split; [reflexivity|lia]).
  - rewrite appendRecord_eq. cbv zeta.
    destruct (rejects_at 0 w).
    { cbn [snd items locations trace app]. split; [apply Hframe; reflexivity|].
      repeat split. eexists. split; [reflexivity|]. cbn. lia. }
    destruct (currentLocations w) as [v|].
    2:{ cbn [snd items locations trace app]. split; [apply Hframe; reflexivity|].
        repeat split. eexists. split; [reflexivity|]. cbn. lia. }
    rewrite Hc. cbn [snd items locations trace app]. split; [apply Hframe; reflexivity|].
    repeat split. eexists. split; [reflexivity|]. cbn. lia.
Qed.

Lemma interact_unusable (acts : list action) :
  ∀ w, unusable w →
       let w' := run (interact acts) w in
       items w' !! LOCATIONS_KEY = items w !! LOCATIONS_KEY
       ∧ locations w' = locations w
       ∧ ∃ evs, trace w' = trace w ++ evs ∧ captures acts ≤ alerts evs.
Proof.
  induction acts as [|a acts IH]; intros w Hu; cbv zeta.
  - cbn. repeat split. exists []. rewrite app_nil_r. split; [reflexivity|]. cbn. lia.
  - rewrite interact_cons.
    destruct (handle_unusable a w Hu) as (Hu1 & Hi1 & Hl1 & evs1 & Ht1 & Ha1).
    destruct (IH _ Hu1) as (Hi2 & Hl2 & evs2 & Ht2 & Ha2).
    split; [congruence|]. split; [congruence|].
    exists (evs1 ++ evs2). rewrite Ht2, Ht1, <- app_assoc. split; [reflexivity|].
    unfold captures, alerts in *. cbn [List.filter].
    rewrite List.filter_app, length_app.
    destruct (is_capture a); cbn [length]; lia.
Qed.

(** X7: once the text under the locations key is not empty and either does
    not parse or parses to something that cannot be spread (a number, a
    boolean, null, an object), no sequence of toggles and captures repairs
    it: the stored text and the in-memory list stay what they were, and every
    capture ends in an alert. *)
Theorem unusable_store_stays (acts : list action) (w : World) :
  unusable w →
  let w' := run (interact acts) w in
  items w' !! LOCATIONS_KEY = items w !! LOCATIONS_KEY
  ∧ locations w' = locations w
  ∧ captures acts ≤ alerts (new_events w w').
Proof.
  intros Hu. destruct (interact_unusable acts w Hu) as (Hi & Hl & evs & Ht & Ha).
  cbv zeta. unfold new_events. rewrite Ht, drop_app_length. auto.
Qed.

(** X8: the two readers of the locations key disagree on the empty text.
    [getLocation] takes it for an empty list and goes on to store [[r]];
    [loadLocations] hands it to [JSON.parse], and where that throws, as it
    does in an engine, it alerts and resets the list. *)
Theorem empty_text_read_two_ways (w : World) (r : json) :
  items w !! LOCATIONS_KEY = Some EmptyString →
  quiet 2 w = true →
  (let w' := run (appendRecord r) w in
   locations w' = JArr [r]
   ∧ items w' !! LOCATIONS_KEY = Some (JSON_stringify (JArr [r]))
   ∧ alerts (new_events w w') = 0)
  ∧ (JSON_parse EmptyString = None →
     let w' := run loadLocations w in
     locations w' = JArr [] ∧ alerts (new_events w w') = 1).
Proof.
  intros Hs Hq. apply quiet_two in Hq as [H0 H1]. unfold run. split.
  - rewrite appendRecord_eq. cbv zeta. unfold currentLocations.
    rewrite H0, Hs. cbn [String.eqb iterate]. rewrite H1. settle'.
    rewrite lookup_insert_eq. auto.
  - intros Hp. rewrite loadLocations_eq. cbv zeta. unfold rejects.
    rewrite H0, Hs, Hp. settle'. auto.
Qed.

(** X9: a JSON string under the locations key is not refused by
    [getLocation]: the capture shows no alert and stores the new record
    followed by the characters of that string, one element each. *)
Theorem capture_spreads_string (w : World) (r : json) (text s : string) :
  items w !! LOCATIONS_KEY = Some text →
  String.eqb text "" = false →
  JSON_parse text = Some (JStr s) →
  quiet 2 w = true →
  let w' := run (appendRecord r) w in
  locations w' = JArr (r :: (JStr <$> code_points s))
  ∧ items w' !! LOCATIONS_KEY
    = Some (JSON_stringify (JArr (r :: (JStr <$> code_points s))))
  ∧ alerts (new_events w w') = 0.
Proof.
  intros Hs Hne Hp Hq. apply quiet_two in Hq as [H0 H1]. unfold run.
  rewrite appendRecord_eq. cbv zeta. unfold currentLocations.
  rewrite H0, Hs, Hne, Hp. cbn [iterate]. rewrite H1. settle'.
  rewrite lookup_insert_eq. auto.
Qed.

(** X10: [loadDarkMode] does not check what it parsed either: whatever value
    the text denotes becomes the preference, with nothing signalled, and the
    theme is the dark one exactly when that value is truthy. *)
Theorem loadDarkMode_no_validation (w : World) (text : string) (v : json) :
  rejects w = false →
  items w !! DARK_MODE_KEY = Some text →
  JSON_parse text = Some v →
  let w' := run loadDarkMode w in
  isSwitchOn w' = v
  ∧ new_events w w' = [StorageGet DARK_MODE_KEY]
  ∧ ∀ (D C : Type) (DefaultTheme : D) (light dark : C),
      colors (themeEffect DefaultTheme light dark w') = if truthy v then dark else light.
Proof.
  intros Hr Hs Hp. unfold run. rewrite loadDarkMode_eq. cbv zeta. rewrite Hr, Hs, Hp.
  settle'. split; [reflexivity|]. split; [reflexivity|].
  intros D C DefaultTheme light dark. unfold themeEffect. cbn [isSwitchOn].
  destruct (truthy v); reflexivity.
Qed.

(** X15: [getLocation] builds on what the storage holds, not on the
    in-memory list: when [loadLocations] is rejected and has reset the list
    to empty with an alert, the next capture that goes through installs the
    new record in front of the stored list, which is back in memory. *)
Theorem capture_recovers_stored_list (w : World) (r : json) (L : list json) :
  persisted w L →
  rejects_at 0 w = true → rejects_at 1 w = false → rejects_at 2 w = false →
  let w1 := run loadLocations w in
  let w2 := run (loadLocations;; appendRecord r) w in
  locations w1 = JArr []
  ∧ alerts (new_events w w1) = 1
  ∧ locations w2 = JArr (r :: L)
  ∧ items w2 !! LOCATIONS_KEY = Some (JSON_stringify (JArr (r :: L))).
Proof.
  intros Hp H0 H1 H2. apply persisted_current in Hp. cbv zeta.
  destruct (run_bind loadLocations (appendRecord r) w (loadLocations_normal w)) as [-> _].
  unfold run. rewrite loadLocations_eq. cbv zeta. unfold rejects. rewrite H0.
  settle'. split; [reflexivity|]. split; [reflexivity|].
  rewrite appendRecord_eq. cbv zeta. unfold currentLocations in *.
  unfold rejects_at in *. cbn [faults items].
  replace (nth 0 (tail (faults w)) false) with (nth 1 (faults w) false)
    by (destruct (faults w) as [|? [|? ?]]; reflexivity).
  replace (nth 1 (tail (faults w)) false) with (nth 2 (faults w) false)
    by (destruct (faults w) as [|? [|? [|? ?]]]; reflexivity).
  rewrite H1, Hp. cbn [iterate]. rewrite H2. cbn [snd locations items].
  rewrite lookup_insert_eq. auto.
Qed.

(** *** Independence *)

(** X11: with no call rejected, a toggle and a capture can be done in either
    order: the preference, the list, the loading flag and the storage end up
    the same. *)
Theorem toggle_capture_commute (w : World) (r : json) :
  faults w = [] →
  same_state (run (onToggleSwitch;; appendRecord r) w)
             (run (appendRecord r;; onToggleSwitch) w).
Proof.
  intros Hf. unfold run, mbind, Async_bind.
  rewrite onToggleSwitch_eq, appendRecord_eq. cbv zeta. cbn [fst snd].
  rewrite appendRecord_eq, onToggleSwitch_eq. cbv zeta. cbn [snd].
  unfold rejects, rejects_at, currentLocations. rewrite Hf.
  cbn [nth drop tail faults items isSwitchOn locations trace isLoading].
  rewrite lookup_insert_ne by discriminate.
  destruct (match items w !! LOCATIONS_KEY with
            | Some text => if String.eqb text "" then Some (JArr []) else JSON_parse text
            | None => Some (JArr [])
            end) as [v|]; [destruct (iterate v) as [rest|]|];
    cbn [nth drop tail faults items isSwitchOn locations trace isLoading];
    unfold same_state; cbn [items isSwitchOn locations isLoading];
    repeat split.
  apply insert_insert_ne. discriminate.
Qed.

(** X12: with no call rejected, running the mount effect a second time
    changes nothing: both loads only copy the storage into the state. *)
Theorem mount_twice (w : World) :
  faults w = [] →
  same_state (run (mount;; mount) w) (run mount w).
Proof.
  intros Hf. destruct (mount_run w) as [Hr Hc].
  destruct (run_bind mount mount w Hc) as [-> _].
  destruct (mount_run (run mount w)) as [-> _]. rewrite Hr.
  unfold run. rewrite !loadDarkMode_eq, !loadLocations_eq. cbv zeta.
  unfold rejects, rejects_at. rewrite Hf.
  cbn [nth tail faults items isSwitchOn locations trace isLoading snd].
  destruct (items w !! DARK_MODE_KEY) as [t1|] eqn:E1;
    [destruct (JSON_parse t1) eqn:P1|];
    (destruct (items w !! LOCATIONS_KEY) as [t2|] eqn:E2;
     [destruct (JSON_parse t2) eqn:P2|]);
    repeat (cbn [nth tail faults items isSwitchOn locations trace isLoading snd];
            rewrite ?E1, ?E2, ?P1, ?P2);
    unfold same_state; cbn [items isSwitchOn locations isLoading]; repeat split.
Qed.

(** *** Record ids *)

Lemma pretty_N_char_digit (x : N) : is_digit (pretty_N_char x) = true.
Proof. unfold pretty_N_char. repeat case_match; reflexivity. Qed.

Lemma string_app_cons (x : ascii) (a b : string) :
  String x a +:+ b = String x (a +:+ b).
Proof. reflexivity. Qed.

Lemma string_app_nil_l (b : string) : EmptyString +:+ b = b.
Proof. reflexivity. Qed.

Lemma string_app_assoc (a b c : string) : (a +:+ b) +:+ c = a +:+ (b +:+ c).
Proof.
  induction a as [|x a IH]; [reflexivity|].
  rewrite !string_app_cons, IH. reflexivity.
Qed.

Lemma string_app_nil_r (a : string) : a +:+ EmptyString = a.
Proof.
  induction a as [|x a IH]; [reflexivity|]. rewrite string_app_cons, IH. reflexivity.
Qed.

Lemma all_digits_app (a b : string) :
  all_digits (a +:+ b) = all_digits a && all_digits b.
Proof.
  induction a as [|c a IH]; [reflexivity|].
  rewrite string_app_cons. cbn [all_digits]. rewrite IH. apply andb_assoc.
Qed.

(** The digits [pretty_N_go] puts in front of its accumulator. *)
Lemma pretty_N_go_digits (x : N) :
  ∀ s, ∃ pre, pretty_N_go x s = pre +:+ s ∧ all_digits pre = true
              ∧ ((0 < x)%N → pre ≠ EmptyString).
Proof.
  induction (N.lt_wf_0 x) as [x _ IH]. intros s.
  destruct (decide (0 < x)%N) as [Hpos|Hz].
  - rewrite pretty_N_go_step by assumption.
    destruct (IH (x `div` 10)%N (N.div_lt x 10 Hpos eq_refl)
                 (String (pretty_N_char (x `mod` 10)) s)) as (pre & -> & Hd & _).
    exists (pre +:+ String (pretty_N_char (x `mod` 10)) EmptyString).
    split; [|split].
    + rewrite string_app_assoc. reflexivity.
    + rewrite all_digits_app, Hd. cbn [all_digits]. rewrite pretty_N_char_digit. reflexivity.
    + intros _. destruct pre; discriminate.
  - assert (x = 0%N) as -> by lia. exists EmptyString. rewrite pretty_N_go_0.
    split; [reflexivity|]. split; [reflexivity|]. lia.
Qed.

Lemma pretty_N_digits (x : N) :
  all_digits (pretty x) = true ∧ pretty x ≠ EmptyString.
Proof.
  unfold pretty, pretty_N. destruct (decide (x = 0%N)) as [->|Hx].
  - split; [reflexivity|discriminate].
  - destruct (pretty_N_go_digits x EmptyString) as (pre & -> & Hd & Hne).
    rewrite string_app_nil_r. split; [assumption|]. apply Hne. lia.
Qed.

(** Digits, a dash, anything: the digits are determined. *)
Lemma digits_before_dash (p1 : string) :
  ∀ p2 s1 s2,
    all_digits p1 = true → all_digits p2 = true →
    p1 +:+ String "-" s1 = p2 +:+ String "-" s2 →
    p1 = p2 ∧ s1 = s2.
Proof.
  induction p1 as [|c1 p1 IH]; intros [|c2 p2] s1 s2 H1 H2 Heq;
    rewrite ?string_app_cons, ?string_app_nil_l in Heq; cbn [all_digits] in *.
  - injection Heq as ->. auto.
  - injection Heq as <- _. discriminate.
  - injection Heq as -> _. discriminate.
  - injection Heq as -> Heq. apply andb_prop in H1 as [_ H1]. apply andb_prop in H2 as [_ H2].
    destruct (IH p2 s1 s2 H1 H2 Heq) as [-> ->]. auto.
Qed.

(** The same for a printed integer, whose sign is a dash in front. *)
Lemma pretty_Z_before_dash (z1 z2 : Z) (s1 s2 : string) :
  pretty z1 +:+ String "-" s1 = pretty z2 +:+ String "-" s2 →
  z1 = z2 ∧ s1 = s2.
Proof.
  assert (Hnn : ∀ z, (0 <= z)%Z → all_digits (pretty z) = true ∧ pretty z ≠ EmptyString).
  { intros [|p|p] Hz; [split; [reflexivity|discriminate]|apply (pretty_N_digits (Npos p))|lia]. }
  assert (Hneg : ∀ p, pretty (Zneg p) = String "-" (pretty (Npos p))) by reflexivity.
  assert (Hmix : ∀ z p t1 t2, (0 <= z)%Z →
            pretty z +:+ String "-" t1 ≠ pretty (Zneg p) +:+ String "-" t2).
  { intros z p t1 t2 Hz Heq. destruct (Hnn z Hz) as [Hd Hne].
    rewrite Hneg in Heq. destruct (pretty z) as [|c rest]; [contradiction|].
    rewrite !string_app_cons in Heq. cbn [all_digits] in Hd.
    injection Heq as -> _. discriminate. }
  intros Heq. destruct (Z_le_gt_dec 0 z1) as [H1|H1], (Z_le_gt_dec 0 z2) as [H2|H2].
  - destruct (Hnn z1 H1) as [Hd1 _], (Hnn z2 H2) as [Hd2 _].
    destruct (digits_before_dash _ _ _ _ Hd1 Hd2 Heq) as [Hp ->].
    split; [apply (inj pretty); assumption|reflexivity].
  - destruct z2 as [|p|p]; try lia. destruct (Hmix z1 p s1 s2 H1 Heq).
  - destruct z1 as [|p|p]; try lia. symmetry in Heq. destruct (Hmix z2 p s2 s1 H2 Heq).
  - destruct z1 as [|p1|p1], z2 as [|p2|p2]; try lia.
    rewrite !Hneg, !string_app_cons in Heq. injection Heq as Heq.
    destruct (pretty_N_digits (Npos p1)) as [Hd1 _], (pretty_N_digits (Npos p2)) as [Hd2 _].
    destruct (digits_before_dash _ _ _ _ Hd1 Hd2 Heq) as [Hp ->].
    apply (inj pretty) in Hp. split; [congruence|reflexivity].
Qed.

Lemma newLocation_id (d : Draws) :
  record_id (newLocation d)
  = Some (JStr ("loc-" +:+ pretty (Date_now d) +:+ "-" +:+ id_suffix (random_id d))).
Proof. reflexivity. Qed.

(** X13: two captures carry the same id exactly when they read the same
    millisecond and kept the same seven characters of their draws; in
    particular, captures in different milliseconds never share an id. *)
Theorem newLocation_id_equal_iff (d1 d2 : Draws) :
  record_id (newLocation d1) = record_id (newLocation d2)
  ↔ Date_now d1 = Date_now d2 ∧ id_suffix (random_id d1) = id_suffix (random_id d2).
Proof.
  rewrite !newLocation_id. split.
  - intros Heq. injection Heq as Heq. apply pretty_Z_before_dash. exact Heq.
  - intros [-> ->]. reflexivity.
Qed.

(** *** What the list shows *)

Lemma pretty_N_go_app (x : N) :
  ∀ s, pretty_N_go x s = pretty_N_go x EmptyString +:+ s.
Proof.
  induction (N.lt_wf_0 x) as [x _ IH]. intros s.
  destruct (decide (0 < x)%N) as [Hpos|Hz].
  - rewrite !(pretty_N_go_step x) by assumption.
    rewrite (IH _ (N.div_lt x 10 Hpos eq_refl) (String _ s)).
    rewrite (IH _ (N.div_lt x 10 Hpos eq_refl) (String _ EmptyString)).
    rewrite string_app_assoc. reflexivity.
  - assert (x = 0%N) as -> by lia. reflexivity.
Qed.

(** The last digit of a printed number of two digits or more. *)
Lemma pretty_N_snoc (x : N) :
  (10 ≤ x)%N →
  pretty x = pretty (x `div` 10)%N +:+ String (pretty_N_char (x `mod` 10)) EmptyString.
Proof.
  intros Hx. unfold pretty, pretty_N.
  assert (0 < x `div` 10)%N by (apply N.div_str_pos; lia).
  rewrite !decide_False by lia.
  rewrite pretty_N_go_step by lia. apply pretty_N_go_app.
Qed.

Lemma string_length_app (a b : string) :
  String.length (a +:+ b) = String.length a + String.length b.
Proof.
  induction a as [|c a IH]; [reflexivity|].
  rewrite string_app_cons. cbn [String.length]. rewrite IH. reflexivity.
Qed.

Lemma pretty_N_length (k : nat) :
  ∀ x : N, (10 ^ N.of_nat k ≤ x < 10 ^ N.of_nat (S k))%N →
           String.length (pretty x) = S k.
Proof.
  induction k as [|k IH]; intros x Hx.
  - cbn in Hx. unfold pretty, pretty_N. rewrite decide_False by lia.
    rewrite pretty_N_go_step by lia.
    rewrite N.div_small by lia. reflexivity.
  - rewrite !Nat2N.inj_succ, !N.pow_succ_r' in Hx. rewrite Nat2N.inj_succ, N.pow_succ_r' in IH.
    assert (10 ≤ x)%N.
    { assert (1 ≤ 10 ^ N.of_nat k)%N by (apply N.neq_0_le_1, N.pow_nonzero; lia). lia. }
    rewrite pretty_N_snoc by assumption. rewrite string_length_app. cbn [String.length].
    rewrite IH; [lia|]. split.
    + apply N.div_le_lower_bound; lia.
    + apply N.Div0.div_lt_upper_bound. lia.
Qed.

(** Cutting after digits that are followed by a digit. *)
Lemma substring_from_0_digits (a : string) :
  ∀ (c : ascii) (b : string),
    all_digits a = true → is_digit c = true →
    substring_from_0 (String.length a) (a +:+ String c b) = a.
Proof.
  assert (Hplain : ∀ c, is_digit c = true →
            is_continuation c = false ∧ (240 <=? N_of_ascii c)%N = false).
  { intros c Hc. unfold is_digit, is_continuation in *.
    apply andb_prop in Hc as [H1 H2]. apply N.leb_le in H1, H2.
    split; [apply andb_false_iff; left; apply N.leb_gt; lia|apply N.leb_gt; lia]. }
  induction a as [|x a IH]; intros c b Ha Hc.
  - rewrite string_app_nil_l. cbn [String.length substring_from_0].
    destruct (Hplain c Hc) as [-> _]. reflexivity.
  - rewrite string_app_cons. cbn [all_digits] in Ha. apply andb_prop in Ha as [Hx Ha].
    cbn [String.length substring_from_0]. destruct (Hplain x Hx) as [-> ->].
    rewrite IH by assumption. reflexivity.
Qed.

Lemma substring_from_0_plain (c : ascii) (n : nat) (s : string) :
  is_continuation c = false → (240 <=? N_of_ascii c)%N = false →
  substring_from_0 (S n) (String c s) = String c (substring_from_0 n s).
Proof. intros H1 H2. cbn [substring_from_0]. rewrite H1, H2. reflexivity. Qed.

Lemma pretty_Z_N (z : Z) : (0 <= z)%Z → pretty z = pretty (Z.to_N z).
Proof. destruct z as [|p|p]; [reflexivity|reflexivity|lia]. Qed.

(** X14: for a record made by [getLocation] at a clock of thirteen digits
    (from September 2001 to November 2286), the title of its list item is
    ["ID: loc-"], the clock without its last two digits, and ["..."]: neither
    the random part of the id nor the last two digits of the clock show, and
    two captures in the same tenth of a second get the same title. *)
Theorem title_of_capture (d : Draws) :
  (10 ^ 12 <= Date_now d < 10 ^ 13)%Z →
  title (newLocation d) = Normal ("ID: loc-" +:+ pretty (Date_now d / 100)%Z +:+ "...")
  ∧ ∀ d', (10 ^ 12 <= Date_now d' < 10 ^ 13)%Z →
          (Date_now d / 100 = Date_now d' / 100)%Z →
          title (newLocation d') = title (newLocation d).
Proof.
  assert (Hone : ∀ d0, (10 ^ 12 <= Date_now d0 < 10 ^ 13)%Z →
            title (newLocation d0)
            = Normal ("ID: loc-" +:+ pretty (Date_now d0 / 100)%Z +:+ "...")).
  { clear d. intros d Ht. unfold title, newLocation.
    cbn [field String.eqb Ascii.eqb Bool.eqb].
    set (suffix := String.substring 2 7 (Number_toString36 (random_id d))).
    rewrite (pretty_Z_N (Date_now d)) by lia.
    rewrite (pretty_Z_N (Date_now d / 100)) by (apply Z.div_pos; lia).
    set (t := Z.to_N (Date_now d)).
    assert (Ht' : (10 ^ 12 ≤ t < 10 ^ 13)%N) by (unfold t; lia).
    assert (Hq : Z.to_N (Date_now d / 100) = ((t `div` 10) `div` 10)%N).
    { unfold t. rewrite N.Div0.div_div. change (10 * 10)%N with 100%N.
      rewrite Z2N.inj_div by lia. reflexivity. }
    rewrite Hq.
    assert (H1 : (10 ^ 11 ≤ t `div` 10 < 10 ^ 12)%N).
    { split; [apply N.div_le_lower_bound; lia|apply N.Div0.div_lt_upper_bound; lia]. }
    assert (H2 : (10 ^ 10 ≤ (t `div` 10) `div` 10 < 10 ^ 11)%N).
    { split; [apply N.div_le_lower_bound; lia|apply N.Div0.div_lt_upper_bound; lia]. }
    rewrite (pretty_N_snoc t) by lia. rewrite (pretty_N_snoc (t `div` 10)) by lia.
    set (q := pretty ((t `div` 10) `div` 10)%N).
    assert (Hlen : String.length q = 11) by (apply (pretty_N_length 10); exact H2).
    assert (Hdig : all_digits q = true) by apply pretty_N_digits.
    rewrite !string_app_assoc, !string_app_cons, !string_app_nil_l.
    rewrite 4!substring_from_0_plain by reflexivity. rewrite <- Hlen.
    rewrite substring_from_0_digits; [reflexivity|assumption|apply pretty_N_char_digit]. }
  intros Ht. split; [apply Hone, Ht|].
  intros d' Ht' Heq. rewrite !Hone by assumption. rewrite Heq. reflexivity.
Qed.

End Further.

(** ** The further properties at work on the reference platform *)

Import Sample2.

Lemma toggle_then_reload_witness :
  let w1 := run (onToggleSwitch (platform := engine)) blank in
  isSwitchOn (run (loadDarkMode (platform := engine)) (mounted (items w1) [false])) = isSwitchOn w1
  ∧ isSwitchOn w1 = JBool true.
Proof.
  apply (toggle_then_reload (platform := engine) blank []).
  - reflexivity.
  - vm_compute. reflexivity.
Defined.

Lemma memory_matches_storage_witness :
  let w' := run (appendRecord (platform := engine) r3) (with_locations one_record) in
  (∃ rest, locations w' = JArr (r3 :: rest))
  ∧ items w' !! LOCATIONS_KEY = Some (JSON_stringify (Platform := engine) (locations w')).
Proof.
  destruct (memory_matches_storage (platform := engine) (with_locations one_record))
    as [Hcapture _].
  apply (Hcapture r3). vm_compute. reflexivity.
Defined.

Lemma capture_then_reload_witness :
  let w1 := run (appendRecord (platform := engine) r3) (with_locations one_record) in
  locations (run (loadLocations (platform := engine)) (mounted (items w1) [false]))
  = locations w1.
Proof.
  apply (capture_then_reload (platform := engine) (with_locations one_record) r3 []).
  - vm_compute. reflexivity.
  - vm_compute. reflexivity.
Defined.

Lemma unusable_store_stays_witness :
  let w := with_locations "5" in
  let w' := run (interact (platform := engine) taps) w in
  items w' !! LOCATIONS_KEY = items w !! LOCATIONS_KEY
  ∧ locations w' = locations w
  ∧ captures taps ≤ alerts (new_events w w').
Proof.
  apply (unusable_store_stays (platform := engine) taps (with_locations "5")).
  exists "5". split; [reflexivity|]. split; [reflexivity|]. vm_compute. reflexivity.
Defined.

Lemma empty_text_read_two_ways_witness :
  let w := with_locations "" in
  locations (run (appendRecord (platform := engine) r1) w) = JArr [r1]
  ∧ locations (run (loadLocations (platform := engine)) w) = JArr []
  ∧ alerts (new_events w (run (loadLocations (platform := engine)) w)) = 1.
Proof.
  destruct (empty_text_read_two_ways (platform := engine) (with_locations "") r1)
    as [(Hl & _) Hload]; [reflexivity|reflexivity|].
  destruct Hload as [Hl' Ha]; [reflexivity|].
  split; [exact Hl|]. split; assumption.
Defined.

Lemma capture_spreads_string_witness :
  let w' := run (appendRecord (platform := engine) r1) with_string in
  locations w' = JArr [r1; JStr "a"; JStr "b"]
  ∧ alerts (new_events with_string w') = 0.
Proof.
  destruct (capture_spreads_string (platform := engine) with_string r1 (quoted "ab") "ab")
    as (Hl & _ & Ha); try reflexivity.
  split; assumption.
Defined.

Lemma loadDarkMode_no_validation_witness :
  let w' := run (loadDarkMode (platform := engine)) with_false_string in
  isSwitchOn w' = JStr "false"
  ∧ colors (themeEffect () "light" "dark" w') = "dark".
Proof.
  destruct (loadDarkMode_no_validation (platform := engine) with_false_string
              (quoted "false") (JStr "false")) as (Hv & _ & Ht); try reflexivity.
  split; [exact Hv|]. apply (Ht unit string () "light" "dark").
Defined.

Lemma capture_recovers_stored_list_witness :
  locations (run (loadLocations (platform := engine)) flaky) = JArr []
  ∧ locations (run (loadLocations (platform := engine);; appendRecord (platform := engine) r3) flaky)
    = JArr [r3; r1].
Proof.
  destruct (capture_recovers_stored_list (platform := engine) flaky r3 [r1])
    as (Hreset & _ & Hback & _); try reflexivity.
  - split; [vm_compute; discriminate|vm_compute; reflexivity].
  - split; assumption.
Defined.

Lemma toggle_capture_commute_witness :
  same_state
    (run (onToggleSwitch (platform := engine);; appendRecord (platform := engine) r1) blank)
    (run (appendRecord (platform := engine) r1;; onToggleSwitch (platform := engine)) blank).
Proof. apply (toggle_capture_commute (platform := engine) blank r1). reflexivity. Defined.

Lemma mount_twice_witness :
  same_state (run (mount (platform := engine);; mount (platform := engine)) with_both)
             (run (mount (platform := engine)) with_both).
Proof. apply (mount_twice (platform := engine) with_both). reflexivity. Defined.

Lemma title_of_capture_witness :
  title r1 = Normal "ID: loc-17300000000..."
  ∧ title r2 = title r1.
Proof.
  destruct (title_of_capture (platform := engine) d1) as [Ht Hsame]; [vm_compute; split; [discriminate|reflexivity]|].
  split; [exact Ht|]. apply (Hsame d2); [vm_compute; split; [discriminate|reflexivity]|reflexivity].
Defined.
